(** * shards-fetcher: a shallow embedding of the retrying HTTP fetcher

    The development follows the layout of the Python package
    [shards.fetcher]:

    - [exceptions.py]  : [FetchError];
    - [decompress.py]  : [decompress];
    - [resource.py]    : [Resource], [from_response], [_stream_and_hash],
                         [_read_and_decompress], [_extract_metadata];
    - [core.py]        : [DEFAULT_HEADERS], [HttpMethod], [Fetcher] with
                         [_ensure_session], [aclose], [_fetch_once],
                         [_fetch_with_retries] and [fetch].

    Library code the package calls ([gzip], [zlib], [hashlib], the
    [aiohttp] transport, the wall clock) is not part of the package; it
    enters the embedding as interfaces (type classes and records of
    operations), and every statement is proved for all their
    implementations.  Calls to [logger] have no effect on the results
    and are left out. *)

From Stdlib Require Import ZArith QArith Ascii String.
From stdpp Require Import base tactics option list strings gmap.

Local Open Scope Z_scope.
Local Open Scope string_scope.
Local Open Scope list_scope.

(** ** Python values shared by all modules *)

(** [bytes] objects. *)
Abbreviation bytes := (list Byte.byte).

(** The [bytes] literal with the given ASCII text. *)
Definition bytes_of (s : string) : bytes := list_byte_of_string s.

(** The exception classes this package meets.  [except ValueError] also
    catches subclasses; aiohttp's [InvalidURL] derives from both
    [ClientError] and [ValueError]. *)
Inductive exn_class :=
| ValueError | InvalidURL
| ClientError | TimeoutError | OSError | AttributeError | RuntimeError
| ZlibError | BadGzipFile | EOFError.

Definition is_ValueError (c : exn_class) : bool :=
  match c with
  | ValueError | InvalidURL => true
  | _ => false
  end.

(** A raised exception: its class and [str(e)]. *)
Record PyExn := mkExn { exn_cls : exn_class; exn_str : string }.

(** The outcome of evaluating a Python expression that may raise. *)
Inductive Result (A : Type) :=
| Ok (a : A)
| Raise (e : PyExn).
Arguments Ok {A} a.
Arguments Raise {A} e.

(** [try: return body  except Exception: return handler] *)
Definition try_except {A} (body : Result A) (handler : PyExn -> A) : A :=
  match body with
  | Ok a => a
  | Raise e => handler e
  end.

(** ** exceptions.py *)

Record FetchError := mkFetchError { fe_url : string; fe_message : string }.

(** ** decompress.py *)

(** The codec libraries: [gzip.decompress], [zlib.decompress] raise on
    malformed input; [gzip.compress], [zlib.compress] are the encoders
    the tests pair them with. *)
Class Codecs := {
  gzip_compress : bytes -> bytes;
  gzip_decompress : bytes -> Result bytes;
  zlib_compress : bytes -> bytes;
  zlib_decompress : bytes -> Result bytes;
}.

Section Decompress.
Context `{Codecs}.

Definition decompress (data : bytes) (encoding : string) (is_chunked : bool)
  : bytes :=
  try_except
    (if is_chunked then Ok data
     else if bool_decide (encoding = "gzip") then gzip_decompress data
     else if bool_decide (encoding = "deflate") then zlib_decompress data
     else Ok data)
    (fun _ => data).

(** [encode(E, b)] of the specification, for the two supported labels. *)
Definition encode (encoding : string) (data : bytes) : bytes :=
  if bool_decide (encoding = "gzip") then gzip_compress data
  else if bool_decide (encoding = "deflate") then zlib_compress data
  else data.
End Decompress.

(** ** Python helpers used by resource.py and core.py *)

(** [str.lower()] on the ASCII range (header values are ASCII). *)
Definition ascii_lower (c : ascii) : ascii :=
  let n := N_of_ascii c in
  if ((65 <=? n) && (n <=? 90))%N then ascii_of_N (n + 32) else c.

Fixpoint lower (s : string) : string :=
  match s with
  | EmptyString => EmptyString
  | String c s' => String (ascii_lower c) (lower s')
  end.

(** [s.split(sep)[0]]: the text before the first separator. *)
Fixpoint split_head (sep : ascii) (s : string) : string :=
  match s with
  | EmptyString => EmptyString
  | String c s' =>
      if bool_decide (c = sep) then EmptyString else String c (split_head sep s')
  end.

(** Truthiness of a [str]. *)
Definition str_truthy (s : string) : bool := negb (bool_decide (s = "")).

(** [bytes.hex()] / the text form of a digest: two lower-case hexadecimal
    digits per byte. *)
Definition hex_digit (n : N) : ascii :=
  match n with
  | 0 => "0" | 1 => "1" | 2 => "2" | 3 => "3" | 4 => "4" | 5 => "5"
  | 6 => "6" | 7 => "7" | 8 => "8" | 9 => "9" | 10 => "a" | 11 => "b"
  | 12 => "c" | 13 => "d" | 14 => "e" | _ => "f"
  end%N%char.

Fixpoint hex (b : bytes) : string :=
  match b with
  | [] => EmptyString
  | x :: b' =>
      let n := Byte.to_N x in
      String (hex_digit (n / 16)) (String (hex_digit (n mod 16)) (hex b'))
  end.

(** [s.split(sep)] for a one-character separator. *)
Fixpoint split_on (sep : ascii) (s : string) : list string :=
  match s with
  | EmptyString => [EmptyString]
  | String c s' =>
      if bool_decide (c = sep) then EmptyString :: split_on sep s'
      else
        match split_on sep s' with
        | [] => [String c EmptyString]
        | x :: xs => String c x :: xs
        end
  end.

(** [sep.join(parts)] *)
Fixpoint join (sep : string) (parts : list string) : string :=
  match parts with
  | [] => EmptyString
  | [x] => x
  | x :: xs => x +:+ sep +:+ join sep xs
  end.

(** The number of separators a text starts with. *)
Fixpoint leading (sep : ascii) (s : string) : nat :=
  match s with
  | EmptyString => O
  | String c s' => if bool_decide (c = sep) then S (leading sep s') else O
  end.

(** How [pathlib] reads the text of a POSIX path: the root is "/" when
    the text starts with one slash or with three or more, "//" when it
    starts with exactly two, and empty otherwise; the parts are the
    pieces between slashes, without the empty ones and the "." ones
    (".." is kept). *)
Definition posix_root (s : string) : string :=
  match leading "/" s with
  | 0%nat => ""
  | 2%nat => "//"
  | _ => "/"
  end.

Definition posix_part (x : string) : bool :=
  negb (bool_decide (x = "")) && negb (bool_decide (x = ".")).

Definition posix_parts (s : string) : list string :=
  List.filter posix_part (split_on "/" s).

(** [str(path)]: the root and the parts joined by slashes, "." for the
    empty relative path. *)
Definition posix_str (root : string) (parts : list string) : string :=
  match parts with
  | [] => if bool_decide (root = "") then "." else root
  | _ => root +:+ join "/" parts
  end.

Definition posix_normalize (s : string) : string :=
  posix_str (posix_root s) (posix_parts s).

(** The parts that [pathlib] keeps. *)
Definition good_part (x : string) : Prop :=
  x ≠ "" /\ x ≠ "." /\ ("/"%char ∉ list_ascii_of_string x).

(** [pathlib.Path] on a POSIX system, by the text [str(path)] gives: a
    path object always holds normalised text. *)
Record Path := mkPath { path_str : string }.

(** [Path(s)] *)
Definition Path_of_str (s : string) : Path := mkPath (posix_normalize s).

(** A value of type [str | Path]. *)
Inductive PathArg :=
| PStr (s : string)
| PPath (p : Path).

(** [Path(x) if isinstance(x, str) else x].  The text of a path object
    is normalised already, and normalising it again gives it back. *)
Definition as_Path (x : PathArg) : Path :=
  match x with
  | PStr s => Path_of_str s
  | PPath p => Path_of_str (path_str p)
  end.

(** Truthiness of an [Optional[str | Path]]: [None] and the empty string
    are false, every [Path] object is true. *)
Definition path_arg_truthy (x : option PathArg) : bool :=
  match x with
  | None => false
  | Some (PStr s) => str_truthy s
  | Some (PPath _) => true
  end.

(** ** hashlib *)

(** The hash library: [sha256] maps a message to its 32-byte digest. *)
Class Hashlib := { sha256 : bytes -> bytes }.

(** A [hashlib.sha256()] object: by the library's contract, feeding
    pieces one after the other is feeding their concatenation. *)
Record sha256_obj := mkSha { fed : bytes }.

Definition hashlib_sha256 : sha256_obj := mkSha [].

Definition sha_update (h : sha256_obj) (data : bytes) : sha256_obj :=
  mkSha (fed h ++ data).

Definition hexdigest `{Hashlib} (h : sha256_obj) : string :=
  hex (sha256 (fed h)).

(** ** The world a fetch runs in *)

(** The headers of a response, as far as the package uses them:
    [headers.get(k)], written [headers !! k], and [dict(headers)].  A
    plain [dict] (the tests) answers both from one mapping; the multidict
    of aiohttp looks keys up without regard to case and may hold a key
    more than once. *)
Record Headers := mkHeaders {
  headers_get : string -> option string;
  headers_dict : gmap string string;
}.

#[global] Instance headers_lookup : Lookup string string Headers :=
  fun k h => headers_get h k.

(** The headers given by a Python [dict]. *)
Definition dict_headers (d : gmap string string) : Headers :=
  mkHeaders (fun k => d !! k) d.

(** An [aiohttp] response, as far as the package uses it.  Responses are
    duck-typed (the tests pass their own classes), hence a record of
    operations:
    - [resp_read] is [await resp.read()];
    - [resp_iter_chunked n] lists the chunks that
      [resp.content.iter_chunked(n)] yields, and the exception that ends
      the iteration, if one does;
    - [resp_get_encoding read] is [resp.get_encoding()], called after
      the body was read in full by [read()] ([read = true]) or without
      that ([read = false]); aiohttp raises [RuntimeError] when the
      Content-Type names no charset and no body has been read. *)
Record Response := mkResponse {
  resp_url : string;
  resp_status : Z;
  resp_headers : Headers;
  resp_read : Result bytes;
  resp_iter_chunked : Z -> list bytes * option PyExn;
  resp_get_encoding : bool -> Result (option string);
}.

(** A request handed to the session: [session.get(url, headers=...)] or
    [session.post(url, headers=...)]. *)
Record Request := mkRequest {
  req_method : string;
  req_url : string;
  req_headers : gmap string string;
}.

(** The network and the clock: the reply to the [i]-th request issued
    (counting from 0), the text of [datetime.now(utc).isoformat()] read
    after it, and what the session class does with a request on a closed
    session (aiohttp raises [RuntimeError]; the [FakeSession] of the
    tests answers all the same: [None]).  What a session keeps from one
    request to the next (cookies, connections) is part of the network
    here: a reply may depend on the requests before it, through [i],
    and not on which session object sent it. *)
Class Network := {
  transport : nat -> Request -> Result Response;
  clock : nat -> string;
  closed_session_error : option PyExn;
}.

(** An [aiohttp.ClientSession]. *)
Record Session := mkSession {
  session_timeout : Q;
  session_closed : bool;
}.

(** What streaming does, in order. *)
Inductive IOEvent :=
| EvOpen (path : string)
| EvChunk (chunk : bytes)
| EvHashUpdate (chunk : bytes)
| EvWrite (path : string) (chunk : bytes)
| EvClose (path : string).

(** The mutable state: the fetcher's semaphore and session, the file
    system, the requests issued so far (oldest first) and the log of
    streaming steps (oldest first). *)
Record World := mkWorld {
  w_semaphore : Z;
  w_session : option Session;
  w_files : gmap string bytes;
  w_readonly : gset string;
  w_requests : list Request;
  w_io : list IOEvent;
}.

(** Computations over the world that may raise. *)
Definition M (A : Type) : Type := World -> Result A * World.

Definition ret {A} (a : A) : M A := fun w => (Ok a, w).

Definition raise {A} (e : PyExn) : M A := fun w => (Raise e, w).

Definition bind {A B} (c : M A) (k : A -> M B) : M B :=
  fun w =>
    match c w with
    | (Ok a, w') => k a w'
    | (Raise e, w') => (Raise e, w')
    end.

Definition lift {A} (r : Result A) : M A := fun w => (r, w).

Definition modify (f : World -> World) : M unit := fun w => (Ok tt, f w).

#[global] Instance M_ret : MRet M := @ret.
#[global] Instance M_bind : MBind M := fun A B k c => bind c k.

(** Field updates of the world. *)
Definition set_semaphore (v : Z) (w : World) : World :=
  mkWorld v (w_session w) (w_files w) (w_readonly w) (w_requests w) (w_io w).

Definition set_session (s : option Session) (w : World) : World :=
  mkWorld (w_semaphore w) s (w_files w) (w_readonly w) (w_requests w) (w_io w).

Definition set_files (fs : gmap string bytes) (w : World) : World :=
  mkWorld (w_semaphore w) (w_session w) fs (w_readonly w) (w_requests w) (w_io w).

Definition log_request (r : Request) (w : World) : World :=
  mkWorld (w_semaphore w) (w_session w) (w_files w) (w_readonly w)
          (w_requests w ++ [r]) (w_io w).

Definition log_io (ev : IOEvent) (w : World) : World :=
  mkWorld (w_semaphore w) (w_session w) (w_files w) (w_readonly w)
          (w_requests w) (w_io w ++ [ev]).

(** ** resource.py *)

Definition CHUNK_SIZE : Z := 8192.

(** The metadata dictionary built by [_extract_metadata], one field per
    key. *)
Record Metadata := mkMetadata {
  md_headers : gmap string string;
  md_status_code : Z;
  md_content_type : string;
  md_mime : option string;
  md_encoding : option string;
  md_etag : option string;
  md_last_modified : option string;
  md_content_encoding : string;
  md_fetched_at : string;
}.

Record Resource := mkResource {
  url : string;
  redirected_url : option string;
  content : option bytes;
  hash : option string;
  metadata : option Metadata;
  fetched_at : option string;
  file_path : option Path;
}.

(** [Resource.__init__] *)
Definition Resource_init (url : string) (redirected_url : option string)
    (content : option bytes) (hash : option string)
    (metadata : option Metadata) (fetched_at : option string)
    (file_path : option PathArg) : Resource :=
  mkResource url redirected_url content hash metadata fetched_at
             (as_Path <$> file_path).

(** [path.open("wb")]: fails on a path that cannot be written, otherwise
    creates or truncates the file. *)
Definition path_open_wb (p : Path) : M unit :=
  fun w =>
    if bool_decide (path_str p ∈ w_readonly w)
    then (Raise (mkExn OSError "cannot open file for writing"), w)
    else (Ok tt,
          log_io (EvOpen (path_str p))
                 (set_files (<[path_str p := []]> (w_files w)) w)).

(** [f.write(chunk)]: appends to the open file. *)
Definition file_write (p : string) (chunk : bytes) : M unit :=
  modify (fun w =>
    log_io (EvWrite p chunk)
           (set_files (<[p := default [] (w_files w !! p) ++ chunk]> (w_files w)) w)).

(** Leaving the [with] block. *)
Definition file_close (p : string) : M unit := modify (log_io (EvClose p)).

(** The body of [async for chunk in resp.content.iter_chunked(CHUNK_SIZE)],
    run over the chunks the iterator yields. *)
Fixpoint stream_chunks (p : string) (chunks : list bytes) (h : sha256_obj)
  : M sha256_obj :=
  match chunks with
  | [] => ret h
  | chunk :: rest =>
      _ ← modify (log_io (EvChunk chunk));
      _ ← modify (log_io (EvHashUpdate chunk));
      let h := sha_update h chunk in
      _ ← file_write p chunk;
      stream_chunks p rest h
  end.

(** [Resource._stream_and_hash]: returns [str(path)]; the hash object it
    updates in place is returned next to it. *)
Definition _stream_and_hash (resp : Response) (stream_to : PathArg)
    (h : sha256_obj) : M (string * sha256_obj) :=
  let path := as_Path stream_to in
  _ ← path_open_wb path;
  let '(chunks, failure) := resp_iter_chunked resp CHUNK_SIZE in
  h ← stream_chunks (path_str path) chunks h;
  _ ← file_close (path_str path);
  match failure with
  | Some e => raise e
  | None => ret (path_str path, h)
  end.

(** [Resource._extract_metadata]; [body_read] tells whether the body of
    [resp] was read by [read()] before.  The call of [get_encoding] may
    raise, and then no dictionary is built. *)
Definition _extract_metadata (resp : Response) (body_read : bool)
    (content_type : string) (mime : option string) (encoding : string)
    (fetched_at : string) : Result Metadata :=
  match resp_get_encoding resp body_read with
  | Raise e => Raise e
  | Ok detected =>
      Ok {| md_headers := headers_dict (resp_headers resp);
            md_status_code := resp_status resp;
            md_content_type := content_type;
            md_mime := mime;
            md_encoding := detected;
            md_etag := resp_headers resp !! "ETag";
            md_last_modified := resp_headers resp !! "Last-Modified";
            md_content_encoding := encoding;
            md_fetched_at := fetched_at |}
  end.

(** [stream_to] when it is truthy. *)
Definition stream_target (stream_to : option PathArg) : option PathArg :=
  if path_arg_truthy stream_to then stream_to else None.

Section ResourcePy.
Context `{Codecs} `{Hashlib}.

(** [Resource._read_and_decompress] *)
Definition _read_and_decompress (resp : Response) (encoding : string)
  : M bytes :=
  raw ← lift (resp_read resp);
  ret (decompress raw encoding false).

(** [Resource.from_response] *)
Definition from_response (url : string) (resp : Response)
    (fetched_at : string) (stream_to : option PathArg) : M Resource :=
  let redirected_url := resp_url resp in
  let content_type := default "" (resp_headers resp !! "Content-Type") in
  let mime :=
    if str_truthy content_type
    then Some (split_head ";" content_type) else None in
  let encoding := lower (default "" (resp_headers resp !! "Content-Encoding")) in
  let sha256hash := hashlib_sha256 in
  '(content_bytes, final_path, sha256hash) ←
    match stream_target stream_to with
    | Some target =>
        '(final_path, sha256hash) ← _stream_and_hash resp target sha256hash;
        ret (None, Some final_path, sha256hash)
    | None =>
        content_bytes ← _read_and_decompress resp encoding;
        ret (Some content_bytes, None, sha_update sha256hash content_bytes)
    end;
  let body_read :=
    match stream_target stream_to with Some _ => false | None => true end in
  metadata ←
    lift (_extract_metadata resp body_read content_type mime encoding
            fetched_at);
  ret (Resource_init url (Some redirected_url) content_bytes
         (Some (hexdigest sha256hash)) (Some metadata) (Some fetched_at)
         (PStr <$> final_path)).
End ResourcePy.

(** ** core.py *)

Definition DEFAULT_USER_AGENT : string := "Fetcher/1.0".

Definition DEFAULT_HEADERS : gmap string string :=
  <["User-Agent" := DEFAULT_USER_AGENT]>
    (<["Accept-Encoding" := "gzip, deflate"]> ∅).

(** [class HttpMethod(str, Enum)]: its members compare equal to their
    string values, so a method is the string the caller passed. *)
Definition HttpMethod_GET : string := "GET".
Definition HttpMethod_POST : string := "POST".

(** The constructor arguments of a [Fetcher], fixed for its lifetime. *)
Record Fetcher := mkFetcher {
  concurrency : Z;
  timeout : Q;
  retries : Z;
}.

(** [asyncio.Semaphore(value)]: the counter of free slots; a negative
    initial value is refused. *)
Definition Semaphore_init (value : Z) : Result Z :=
  if (value <? 0)%Z
  then Raise (mkExn ValueError "Semaphore initial value must be >= 0")
  else Ok value.

(** [Semaphore.locked()]: no free slot. *)
Definition sem_locked (w : World) : bool := (w_semaphore w <=? 0)%Z.

(** Entering and leaving [async with self.semaphore]. *)
Definition sem_acquire (w : World) : World :=
  set_semaphore (w_semaphore w - 1) w.

Definition sem_release (w : World) : World :=
  set_semaphore (w_semaphore w + 1) w.

(** [Fetcher.__init__]: the world just after it, with the semaphore at
    [concurrency] and no session. *)
Definition Fetcher_init (self : Fetcher) (files : gmap string bytes)
    (readonly : gset string) : Result World :=
  match Semaphore_init (concurrency self) with
  | Ok v => Ok (mkWorld v None files readonly [] [])
  | Raise e => Raise e
  end.

(** [Fetcher._ensure_session] *)
Definition _ensure_session (self : Fetcher) (w : World) : World :=
  match w_session w with
  | None => set_session (Some (mkSession (timeout self) false)) w
  | Some s =>
      if session_closed s
      then set_session (Some (mkSession (timeout self) false)) w
      else w
  end.

(** [Fetcher.aclose] *)
Definition aclose (w : World) : World :=
  match w_session w with
  | Some s => if negb (session_closed s) then set_session None w else w
  | None => w
  end.

(** [headers or DEFAULT_HEADERS.copy()]: [None] and the empty dictionary
    are false. *)
Definition headers_or_default (headers : option (gmap string string))
  : gmap string string :=
  match headers with
  | Some h => if bool_decide (h = ∅) then DEFAULT_HEADERS else h
  | None => DEFAULT_HEADERS
  end.

(** How one call of [_fetch_with_retries] or [fetch] ends. *)
Inductive FetchResult :=
| Returned (r : Resource)
| Failed (e : FetchError).

(** What one call of [_fetch_with_retries] did: its result, the final
    value of [attempt], the delays passed to [asyncio.sleep] in order,
    and the world it leaves. *)
Record Run := mkRun {
  run_result : FetchResult;
  run_attempts : Z;
  run_slept : list Z;
  run_world : World;
}.

Definition delay_base : Z := 1.

Section CorePy.
Context `{Codecs} `{Hashlib} `{Network}.

(** [self.session.get(url, headers=headers)] and [.post], [attr] being
    the name of the method looked up on the session: with no session the
    attribute access fails; on a closed session the session class may
    refuse; otherwise the request goes out and the network answers it. *)
Definition session_request (attr method url : string)
    (headers : gmap string string) : M Response :=
  fun w =>
    match w_session w with
    | None =>
        (Raise (mkExn AttributeError
                  ("'NoneType' object has no attribute '" +:+ attr +:+ "'")), w)
    | Some s =>
        match (if session_closed s then closed_session_error else None) with
        | Some e => (Raise e, w)
        | None =>
            let req := mkRequest method url headers in
            (transport (length (w_requests w)) req, log_request req w)
        end
    end.

(** [datetime.now(timezone.utc).isoformat()] *)
Definition datetime_now : M string :=
  fun w => (Ok (clock (length (w_requests w))), w).

(** [Fetcher._fetch_once] *)
Definition _fetch_once (url method : string) (stream_to : option PathArg)
    (headers : option (gmap string string)) : M Resource :=
  let headers := headers_or_default headers in
  resp ←
    (if bool_decide (method = HttpMethod_GET)
     then session_request "get" "GET" url headers
     else if bool_decide (method = HttpMethod_POST)
     then session_request "post" "POST" url headers
     else raise (mkExn ValueError ("Unsupported HTTP method: " +:+ method)));
  now ← datetime_now;
  from_response url resp now stream_to.

(** The retry loop dispatches through [self._fetch_once], which the
    tests replace; it is a parameter here and instantiated with
    [_fetch_once] in [Fetcher_fetch] below. *)
Section Retry.
Variable self_fetch_once :
  string -> string -> option PathArg -> option (gmap string string) ->
  M Resource.
Variable self : Fetcher.

(** The [while True] loop of [_fetch_with_retries]; [attempt] and
    [slept] are the values on entry to an iteration.  [None]: the
    loop is still running when the fuel is spent. *)
Fixpoint retry_loop (fuel : nat) (url method : string)
    (stream_to : option PathArg) (headers : option (gmap string string))
    (attempt : Z) (slept : list Z) (w : World) : option Run :=
  match fuel with
  | O => None
  | S fuel' =>
      let attempt := attempt + 1 in
      match self_fetch_once url method stream_to headers w with
      | (Ok r, w') => Some (mkRun (Returned r) attempt slept w')
      | (Raise e, w') =>
          if is_ValueError (exn_cls e)
          then Some (mkRun (Failed (mkFetchError url (exn_str e)))
                           attempt slept w')
          else if (attempt =? retries self)%Z
          then Some (mkRun (Failed (mkFetchError url (exn_str e)))
                           attempt slept w')
          else retry_loop fuel' url method stream_to headers attempt
                          (slept ++ [delay_base * 2 ^ attempt]) w'
      end
  end.

(** [Fetcher._fetch_with_retries] *)
Definition _fetch_with_retries (fuel : nat) (url method : string)
    (stream_to : option PathArg) (headers : option (gmap string string))
    (w : World) : option Run :=
  retry_loop fuel url method stream_to headers 0 [] w.

(** [Fetcher.fetch], one call run on its own: [async with
    self.semaphore] takes a slot (and waits for ever when there is
    none: [None]), the body runs, and the slot is given back however
    the body ends. *)
Definition fetch (fuel : nat) (url method : string)
    (stream_to : option PathArg) (headers : option (gmap string string))
    (w : World) : option Run :=
  if sem_locked w then None
  else
    let w := sem_acquire w in
    let w := _ensure_session self w in
    match _fetch_with_retries fuel url method stream_to headers w with
    | None => None
    | Some run =>
        Some (mkRun (run_result run) (run_attempts run) (run_slept run)
                    (sem_release (run_world run)))
    end.
End Retry.

(** [fetch] of an unpatched [Fetcher]. *)
Definition Fetcher_fetch (self : Fetcher) := fetch _fetch_once self.
End CorePy.

(** ** The attempt sequence seen by the retry loop *)

Section Attempts.
Variable self_fetch_once :
  string -> string -> option PathArg -> option (gmap string string) ->
  M Resource.
Variables (url method : string) (stream_to : option PathArg)
          (headers : option (gmap string string)).

(** The world after [n] calls of [self._fetch_once], one after the
    other. *)
Fixpoint world_after (n : nat) (w : World) : World :=
  match n with
  | O => w
  | S n' => snd (self_fetch_once url method stream_to headers (world_after n' w))
  end.

(** What call number [n + 1] does. *)
Definition outcome (n : nat) (w : World) : Result Resource :=
  fst (self_fetch_once url method stream_to headers (world_after n w)).
End Attempts.

(** A failure the loop retries: any exception that is not a
    [ValueError]. *)
Definition retriable {A} (r : Result A) : bool :=
  match r with
  | Ok _ => false
  | Raise e => negb (is_ValueError (exn_cls e))
  end.

(** Attempt number [attempt] ends the loop when it does this: it returns,
    or raises a [ValueError], or raises at the last attempt allowed. *)
Definition decisive (self : Fetcher) (attempt : Z) (r : Result Resource) : bool :=
  match r with
  | Ok _ => true
  | Raise e => is_ValueError (exn_cls e) || (attempt =? retries self)%Z
  end.

(** The delay slept after failed attempt [n]. *)
Definition backoff (n : Z) : Z := delay_base * 2 ^ n.

(** [backoff 1; ...; backoff k] *)
Definition backoffs (k : nat) : list Z :=
  (fun i => backoff (Z.of_nat (S i))) <$> seq 0 k.

(** ** Concurrent calls of [fetch] *)

(** The arguments of one call of [fetch]. *)
Record Call := mkCall {
  call_url : string;
  call_method : string;
  call_stream_to : option PathArg;
  call_headers : option (gmap string string);
}.

(** Where a call of [fetch] stands between two of its steps: before
    [async with self.semaphore] has given it a slot; inside the block,
    about to make attempt number [attempt + 1], having slept [slept];
    or out of the block, with its result. *)
Inductive CallState :=
| Pending
| Active (attempt : Z) (slept : list Z)
| Finished (result : FetchResult) (attempts : Z) (slept : list Z).

(** The calls issued on one fetcher and the world they share. *)
Record System := mkSystem {
  sys_world : World;
  sys_calls : list (Call * CallState);
}.

Section Calls.
Variable self_fetch_once :
  string -> string -> option PathArg -> option (gmap string string) ->
  M Resource.
Variable self : Fetcher.

(** One round of the [while True] loop of [_fetch_with_retries]: the run
    it ends with, or the values of [attempt] and of the delays slept and
    the world with which the next round starts. *)
Definition loop_iteration (c : Call) (attempt : Z) (slept : list Z) (w : World)
  : Run + (Z * list Z * World) :=
  let attempt := attempt + 1 in
  match self_fetch_once (call_url c) (call_method c) (call_stream_to c)
          (call_headers c) w with
  | (Ok r, w') => inl (mkRun (Returned r) attempt slept w')
  | (Raise e, w') =>
      if is_ValueError (exn_cls e)
      then inl (mkRun (Failed (mkFetchError (call_url c) (exn_str e)))
                      attempt slept w')
      else if (attempt =? retries self)%Z
      then inl (mkRun (Failed (mkFetchError (call_url c) (exn_str e)))
                      attempt slept w')
      else inr (attempt, slept ++ [delay_base * 2 ^ attempt], w')
  end.

(** One step of a call.  A pending call needs a free slot: it takes it
    and makes sure of the session, with no [await] in between; with no
    slot it cannot move.  An active call makes one round of the loop;
    when the round ends the loop the call leaves the block and gives
    the slot back, by [return] or by [raise] alike; otherwise it
    sleeps.  An attempt is taken as one step, although it awaits the
    network: what two attempts do to the world is not interleaved here.
    The semaphore is not touched inside an attempt. *)
Definition call_step (c : Call) (st : CallState) (w : World)
  : option (CallState * World) :=
  match st with
  | Pending =>
      if sem_locked w then None
      else Some (Active 0 [], _ensure_session self (sem_acquire w))
  | Active attempt slept =>
      match loop_iteration c attempt slept w with
      | inl run =>
          Some (Finished (run_result run) (run_attempts run) (run_slept run),
                sem_release (run_world run))
      | inr (attempt', slept', w') => Some (Active attempt' slept', w')
      end
  | Finished _ _ _ => None
  end.

(** asyncio runs one call at a time: the scheduler lets call [i] make its
    next step, if it can.  Any pending call may be the one that gets a
    free slot. *)
Definition sys_step (i : nat) (s : System) : option System :=
  match sys_calls s !! i with
  | Some (c, st) =>
      match call_step c st (sys_world s) with
      | Some (st', w') => Some (mkSystem w' (<[i := (c, st')]> (sys_calls s)))
      | None => None
      end
  | None => None
  end.

(** A schedule: which call moves, step after step. *)
Fixpoint sys_run (schedule : list nat) (s : System) : option System :=
  match schedule with
  | [] => Some s
  | i :: rest =>
      match sys_step i s with
      | Some s' => sys_run rest s'
      | None => None
      end
  end.
End Calls.

(** The calls just issued, none of them started. *)
Definition sys_init (w : World) (calls : list Call) : System :=
  mkSystem w ((fun c => (c, Pending)) <$> calls).

Definition is_pending (x : Call * CallState) : bool :=
  match snd x with Pending => true | _ => false end.

Definition is_active (x : Call * CallState) : bool :=
  match snd x with Active _ _ => true | _ => false end.

Definition is_finished (x : Call * CallState) : bool :=
  match snd x with Finished _ _ _ => true | _ => false end.

Definition count_calls (f : Call * CallState -> bool) (s : System) : Z :=
  Z.of_nat (length (List.filter f (sys_calls s))).

(** Calls in their network phase (inside the block), calls that have
    left it, and calls that have entered it. *)
Definition active (s : System) : Z := count_calls is_active s.
Definition finished (s : System) : Z := count_calls is_finished s.
Definition entered (s : System) : Z := active s + finished s.

Definition b2z (x : bool) : Z := if x then 1 else 0.

(** ** The log of a streamed body *)

(** What the loop of [_stream_and_hash] logs for one chunk, and for the
    chunks of a body. *)
Definition chunk_events (p : string) (chunk : bytes) : list IOEvent :=
  [EvChunk chunk; EvHashUpdate chunk; EvWrite p chunk].

Definition stream_events (p : string) (chunks : list bytes) : list IOEvent :=
  concat (chunk_events p <$> chunks).



(** ** Test doubles *)

(** [range(0, stop, step)] for a positive [step]. *)
Definition py_range (stop step : nat) : list nat :=
  (fun k => k * step)%nat <$> seq 0 ((stop + step - 1) `div` step)%nat.

(** [b[i:j]] for [0 <= i <= j]. *)
Definition slice (b : bytes) (i j : nat) : bytes := take (j - i) (drop i b).

(** [DummyResp.Content.iter_chunked] of tests/test_resource.py. *)
Definition dummy_iter_chunked (content_bytes : bytes) (chunk_size : Z)
  : list bytes * option PyExn :=
  if (chunk_size =? 0)%Z
  then ([], Some (mkExn ValueError "range() arg 3 must not be zero"))
  else if (chunk_size <? 0)%Z then ([], None)
  else
    let n := Z.to_nat chunk_size in
    ((fun i => slice content_bytes i (i + n)) <$> py_range (length content_bytes) n,
     None).

(** [DummyResp] of tests/test_resource.py. *)
Definition DummyResp (url : string) (headers : gmap string string)
    (status : Z) (content_bytes : bytes) (encoding : option string)
  : Response :=
  {| resp_url := url;
     resp_status := status;
     resp_headers := dict_headers headers;
     resp_read := Ok content_bytes;
     resp_iter_chunked := dummy_iter_chunked content_bytes;
     resp_get_encoding _ := Ok encoding |}.

(** The response carries [body]: the bulk read returns it, and for every
    positive chunk size the chunk iterator yields it piece by piece and
    ends normally. *)
Definition delivers (resp : Response) (body : bytes) : Prop :=
  resp_read resp = Ok body
  /\ forall n, 0 < n ->
       exists chunks,
         resp_iter_chunked resp n = (chunks, None) /\ concat chunks = body.

(** A network that fails the first [k] requests with [ClientError] and
    then always answers [resp], after the mocks of
    tests/test_fetcher_core.py. *)
Definition flaky_network (k : nat) (resp : Response) : Network :=
  {| transport i _ :=
       if (i <? k)%nat
       then Raise (mkExn ClientError "Simulated network error")
       else Ok resp;
     clock _ := "2024-01-01T00:00:00Z";
     closed_session_error := None |}.

(** The values of the tests: a plain-text response, a fetcher with the
    default concurrency and timeout and three attempts, the world after
    its construction. *)
Definition example_url : string := "http://example.com".

Definition example_response : Response :=
  DummyResp "http://example.com/redirect"
    (<["Content-Type" := "text/plain; charset=utf-8"]> ∅)
    200 (bytes_of "hello world") (Some "utf-8").

Definition example_fetcher : Fetcher := mkFetcher 1 10 3.

Definition example_world : World := mkWorld 1 None ∅ ∅ [] [].

(** Two calls issued together: one with a method the fetcher refuses,
    one with the default method. *)
Definition example_calls : list Call :=
  [mkCall example_url "PUT" None None; mkCall example_url "GET" None None].

(** A network that always answers [resp], as [FakeSession] of
    tests/fakers.py does. *)
Definition steady_network (resp : Response) : Network := flaky_network 0 resp.

(** Stand-ins for the codec and hash libraries, to evaluate examples.
    The codecs frame the payload with the magic bytes of the format and
    do not compress; the digest is the one-byte sum of the message. *)
Definition framing_codecs : Codecs :=
  {| gzip_compress b := Byte.x1f :: Byte.x8b :: b;
     gzip_decompress d :=
       match d with
       | [] => Ok []
       | Byte.x1f :: Byte.x8b :: b => Ok b
       | _ => Raise (mkExn BadGzipFile "Not a gzipped file")
       end;
     zlib_compress b := Byte.x78 :: Byte.x9c :: b;
     zlib_decompress d :=
       match d with
       | Byte.x78 :: Byte.x9c :: b => Ok b
       | _ => Raise (mkExn ZlibError "Error -3 while decompressing data")
       end |}.

Definition sum_hashlib : Hashlib :=
  {| sha256 b :=
       [default Byte.x00
          (Byte.of_N (fold_right (fun x acc => (Byte.to_N x + acc) mod 256)%N 0%N b))] |}.


(** A response whose body is gzip-framed and says so, in capitals. *)
Definition gzip_response : Response :=
  DummyResp "http://example.com/data"
    (<["Content-Type" := "application/octet-stream"]>
       (<["Content-Encoding" := "GZIP"]> ∅))
    200 (@gzip_compress framing_codecs (bytes_of "hello world")) None.

(** ** Further definitions used in statements *)

(** The seconds slept in all. *)
Definition total_sleep (slept : list Z) : Z := foldr Z.add 0 slept.

(** The world after a target file was opened, filled with [chunks] and
    closed. *)
Definition streamed_world (p : string) (chunks : list bytes) (w : World) : World :=
  mkWorld (w_semaphore w) (w_session w) (<[p := concat chunks]> (w_files w))
          (w_readonly w) (w_requests w)
          (w_io w ++ EvOpen p :: (stream_events p chunks ++ [EvClose p])).

(** The header values [from_response] works with. *)
Definition response_content_type (resp : Response) : string :=
  default "" (resp_headers resp !! "Content-Type").

Definition response_mime (resp : Response) : option string :=
  if str_truthy (response_content_type resp)
  then Some (split_head ";" (response_content_type resp)) else None.

Definition response_encoding (resp : Response) : string :=
  lower (default "" (resp_headers resp !! "Content-Encoding")).

(** The metadata [from_response] asks for, on the buffered path
    ([body_read = true]) and on the streaming path. *)
Definition response_metadata (resp : Response) (body_read : bool)
    (fetched_at : string) : Result Metadata :=
  _extract_metadata resp body_read (response_content_type resp)
    (response_mime resp) (response_encoding resp) fetched_at.

(** The fetcher holds a session that is not closed. *)
Definition session_open (w : World) : bool :=
  match w_session w with
  | Some s => negb (session_closed s)
  | None => false
  end.

(** [Fetcher.__aenter__] returns [self]; [Fetcher.__aexit__] awaits
    [aclose] and returns [None], so an exception of the block goes on. *)
Definition Fetcher_aenter (w : World) : World := w.

Definition Fetcher_aexit (w : World) : World := aclose w.

(** [async with Fetcher(...) as fetcher: body] *)
Definition async_with_Fetcher {A} (body : M A) : M A :=
  fun w =>
    let '(r, w') := body (Fetcher_aenter w) in
    (r, Fetcher_aexit w').

(** The mock of tests/test_fetcher_core.py that never recovers: every
    call raises [aiohttp.ClientError]. *)
Definition mock_fetch_once_failing (url method : string)
    (stream_to : option PathArg) (headers : option (gmap string string))
  : M Resource :=
  fun w => (Raise (mkExn ClientError "Simulated network error"), w).

(** A response whose body breaks off after one chunk. *)
Definition broken_response : Response :=
  {| resp_url := example_url;
     resp_status := 200;
     resp_headers := dict_headers ∅;
     resp_read := Raise (mkExn ClientError "Connection reset");
     resp_iter_chunked _ :=
       ([bytes_of "hel"], Some (mkExn ClientError "Connection reset"));
     resp_get_encoding _ := Ok None |}.


(** * Properties *)

(** ** decompress.py *)

Section DecompressProperties.
Context `{Codecs}.

Lemma decompress_chunked data encoding :
  decompress data encoding true = data.
Proof. reflexivity. Qed.

Lemma decompress_other_label data encoding :
  encoding ≠ "gzip" -> encoding ≠ "deflate" ->
  decompress data encoding false = data.
Proof.
  intros Hg Hd. unfold decompress.
  rewrite !bool_decide_eq_false_2 by assumption. reflexivity.
Qed.

Lemma decompress_gzip data :
  decompress data "gzip" false =
  try_except (gzip_decompress data) (fun _ => data).
Proof. reflexivity. Qed.

Lemma decompress_deflate data :
  decompress data "deflate" false =
  try_except (zlib_decompress data) (fun _ => data).
Proof. reflexivity. Qed.

(** C7. Decoding what a supported encoder produced gives the payload
    back: for [E] one of "gzip" and "deflate",
    [decompress (encode E data) E] (not chunked) is [data], for codec
    libraries whose decoder inverts their encoder. *)
Theorem decompress_encode_roundtrip :
  (forall data, gzip_decompress (gzip_compress data) = Ok data) ->
  (forall data, zlib_decompress (zlib_compress data) = Ok data) ->
  forall (data : bytes) (E : string),
    E = "gzip" \/ E = "deflate" ->
    decompress (encode E data) E false = data.
Proof.
  intros Hgz Hzl data E [-> | ->].
  - rewrite decompress_gzip. unfold encode. simpl. rewrite Hgz. reflexivity.
  - rewrite decompress_deflate. unfold encode. simpl. rewrite Hzl. reflexivity.
Qed.

(** C8. [decompress] is total and is the identity whenever it does not
    decode: under any label other than "gzip" and "deflate" (the empty
    label, unknown labels and "br" among them), under [is_chunked]
    whatever the label and the data, and under a known label when the
    decoder raises. *)
Theorem decompress_identity_cases :
  (forall data encoding,
      encoding ≠ "gzip" -> encoding ≠ "deflate" ->
      decompress data encoding false = data)
  /\ (forall data, decompress data "" false = data
                   /\ decompress data "br" false = data)
  /\ (forall data encoding, decompress data encoding true = data)
  /\ (forall data e,
         gzip_decompress data = Raise e -> decompress data "gzip" false = data)
  /\ (forall data e,
         zlib_decompress data = Raise e ->
         decompress data "deflate" false = data).
Proof.
  split; [exact decompress_other_label|].
  split; [intros data; split; apply decompress_other_label; discriminate|].
  split; [exact decompress_chunked|].
  split; intros data e He.
  - rewrite decompress_gzip, He. reflexivity.
  - rewrite decompress_deflate, He. reflexivity.
Qed.
End DecompressProperties.

Lemma decompress_encode_roundtrip_witness :
  @decompress framing_codecs
    (@encode framing_codecs "gzip" (bytes_of "hello gzip")) "gzip" false
  = bytes_of "hello gzip"
  /\ @decompress framing_codecs
       (@encode framing_codecs "deflate" (bytes_of "hello deflate")) "deflate" false
     = bytes_of "hello deflate".
Proof.
  split.
  - apply (@decompress_encode_roundtrip framing_codecs);
      [intros data; reflexivity | intros data; reflexivity | left; reflexivity].
  - apply (@decompress_encode_roundtrip framing_codecs);
      [intros data; reflexivity | intros data; reflexivity | right; reflexivity].
Defined.

Lemma decompress_identity_cases_witness :
  @decompress framing_codecs (bytes_of "no compression") "unknown" false
  = bytes_of "no compression"
  /\ @decompress framing_codecs
       (@gzip_compress framing_codecs (bytes_of "chunked data")) "gzip" true
     = @gzip_compress framing_codecs (bytes_of "chunked data")
  /\ @decompress framing_codecs (bytes_of "not really compressed") "gzip" false
     = bytes_of "not really compressed"
  /\ @decompress framing_codecs (bytes_of "not deflate") "deflate" false
     = bytes_of "not deflate".
Proof.
  destruct (@decompress_identity_cases framing_codecs)
    as (Hother & _ & Hchunked & Hgzip & Hdeflate).
  split; [apply Hother; discriminate|].
  split; [apply Hchunked|].
  split.
  - eapply Hgzip. reflexivity.
  - eapply Hdeflate. reflexivity.
Defined.

(** ** pathlib: the text of a path *)

Lemma append_cons c x r : String c x +:+ r = String c (x +:+ r).
Proof. reflexivity. Qed.

Lemma split_on_nonempty sep s : split_on sep s ≠ [].
Proof.
  destruct s as [|c s]; simpl; [discriminate|].
  case_bool_decide; [discriminate|]. destruct (split_on sep s); discriminate.
Qed.

(** The pieces of a split hold no separator. *)
Lemma split_on_pieces sep s :
  Forall (fun x => sep ∉ list_ascii_of_string x) (split_on sep s).
Proof.
  induction s as [|c s IH]; simpl.
  - constructor; [apply not_elem_of_nil | constructor].
  - case_bool_decide as Hc.
    + constructor; [apply not_elem_of_nil | exact IH].
    + destruct (split_on sep s) as [|x xs]; simpl.
      * constructor; [|constructor]. simpl. rewrite elem_of_cons.
        intros [-> | Hin]; [congruence | inversion Hin].
      * inversion IH as [|? ? Hx Hxs]; subst. constructor; [|exact Hxs].
        simpl. rewrite elem_of_cons. intros [-> | Hin]; [congruence | tauto].
Qed.

(** A text without the separator is its own single piece, and a piece
    followed by a separator splits off. *)
Lemma split_on_app sep x rest :
  sep ∉ list_ascii_of_string x ->
  split_on sep (x +:+ String sep rest) = x :: split_on sep rest.
Proof.
  induction x as [|c x IH]; intros Hx.
  - simpl. rewrite bool_decide_eq_true_2 by reflexivity. reflexivity.
  - simpl in Hx. rewrite elem_of_cons in Hx.
    rewrite append_cons. simpl.
    rewrite bool_decide_eq_false_2 by (intros ->; tauto).
    rewrite IH by tauto. reflexivity.
Qed.

Lemma split_on_single sep x :
  sep ∉ list_ascii_of_string x -> split_on sep x = [x].
Proof.
  induction x as [|c x IH]; intros Hx; [reflexivity|].
  simpl in Hx. rewrite elem_of_cons in Hx. simpl.
  rewrite bool_decide_eq_false_2 by (intros ->; tauto).
  rewrite IH by tauto. reflexivity.
Qed.

Lemma split_on_join sep parts :
  parts ≠ [] ->
  Forall (fun x => sep ∉ list_ascii_of_string x) parts ->
  split_on sep (join (String sep "") parts) = parts.
Proof.
  induction parts as [|x [|y ys] IH]; intros Hne Hall; [contradiction| |].
  - simpl. apply split_on_single. inversion Hall; assumption.
  - inversion Hall as [|? ? Hx Hrest]; subst.
    change (join (String sep "") (x :: y :: ys))
      with (x +:+ String sep (join (String sep "") (y :: ys))).
    rewrite split_on_app by exact Hx. f_equal. apply IH; [discriminate | exact Hrest].
Qed.

Lemma posix_parts_good s : Forall good_part (posix_parts s).
Proof.
  unfold posix_parts.
  pose proof (split_on_pieces "/" s) as Hp.
  induction Hp as [|x xs Hx Hxs IH]; simpl; [constructor|].
  unfold posix_part at 1. repeat case_bool_decide; simpl; try exact IH.
  constructor; [|exact IH]. repeat split; assumption.
Qed.

Lemma filter_good parts :
  Forall good_part parts -> List.filter posix_part parts = parts.
Proof.
  induction 1 as [|x xs (Hx & Hd & _) _ IH]; [reflexivity|]. simpl.
  unfold posix_part at 1.
  rewrite !bool_decide_eq_false_2 by assumption. simpl. f_equal. exact IH.
Qed.

Lemma posix_parts_join parts :
  parts ≠ [] -> Forall good_part parts -> posix_parts (join "/" parts) = parts.
Proof.
  intros Hne Hgood. unfold posix_parts.
  rewrite split_on_join; [apply filter_good; exact Hgood | exact Hne |].
  eapply Forall_impl; [exact Hgood|]. intros x (_ & _ & Hx). exact Hx.
Qed.

Lemma posix_parts_slash s : posix_parts (String "/" s) = posix_parts s.
Proof. reflexivity. Qed.

Lemma leading_join parts :
  parts ≠ [] -> Forall good_part parts -> leading "/" (join "/" parts) = 0%nat.
Proof.
  destruct parts as [|x xs]; intros Hne Hgood; [contradiction|].
  inversion Hgood as [|? ? (Hx & _ & Hs) _]; subst.
  destruct x as [|c x]; [contradiction|].
  assert (Hc : c ≠ "/"%char).
  { intros ->. apply Hs. simpl. rewrite elem_of_cons. left. reflexivity. }
  destruct xs; simpl; rewrite bool_decide_eq_false_2 by exact Hc; reflexivity.
Qed.

Lemma posix_root_cases s :
  posix_root s = "" \/ posix_root s = "/" \/ posix_root s = "//".
Proof.
  unfold posix_root. destruct (leading "/" s) as [|[|[|n]]]; auto.
Qed.

(** Normalising a normalised text changes nothing: [str(Path(str(p)))]
    is [str(p)]. *)
Lemma posix_str_normal root parts :
  root = "" \/ root = "/" \/ root = "//" ->
  Forall good_part parts ->
  posix_normalize (posix_str root parts) = posix_str root parts.
Proof.
  intros Hroot Hgood. destruct parts as [|x xs].
  - destruct Hroot as [-> | [-> | ->]]; reflexivity.
  - assert (Hne : x :: xs ≠ []) by discriminate.
    pose proof (leading_join _ Hne Hgood) as Hlead.
    pose proof (posix_parts_join _ Hne Hgood) as Hparts.
    set (t := join "/" (x :: xs)) in *.
    unfold posix_str. fold t. unfold posix_normalize.
    destruct Hroot as [-> | [-> | ->]].
    + change ("" +:+ t) with t. unfold posix_root. rewrite Hlead, Hparts. reflexivity.
    + change ("/" +:+ t) with (String "/" t).
      rewrite posix_parts_slash, Hparts. unfold posix_root. simpl. rewrite Hlead.
      reflexivity.
    + change ("//" +:+ t) with (String "/" (String "/" t)).
      rewrite !posix_parts_slash, Hparts. unfold posix_root. simpl. rewrite Hlead.
      reflexivity.
Qed.

Lemma posix_normalize_idem s :
  posix_normalize (posix_normalize s) = posix_normalize s.
Proof.
  unfold posix_normalize at 2 3.
  apply posix_str_normal; [apply posix_root_cases | apply posix_parts_good].
Qed.

(** [Path(str(path))] is [path], for the path of any [str | Path]. *)
Lemma as_Path_str x : as_Path (PStr (path_str (as_Path x))) = as_Path x.
Proof.
  destruct x as [s | p]; simpl; unfold Path_of_str; simpl;
    rewrite posix_normalize_idem; reflexivity.
Qed.

Example posix_normalize_examples :
  posix_normalize "./out.bin" = "out.bin"
  /\ posix_normalize "a//b/" = "a/b"
  /\ posix_normalize "" = "."
  /\ posix_normalize "//a" = "//a"
  /\ posix_normalize "///a//b" = "/a/b"
  /\ posix_normalize "/./a/" = "/a"
  /\ posix_normalize "a/.." = "a/.."
  /\ posix_normalize "//." = "//".
Proof. repeat split. Qed.

(** ** resource.py *)

Ltac unfold_m :=
  unfold mbind, M_bind, mret, M_ret, bind, ret, raise, lift, modify; cbn beta iota.

Lemma stream_chunks_spec p chunks : forall h w old,
  w_files w !! p = Some old ->
  stream_chunks p chunks h w =
  (Ok (mkSha (fed h ++ concat chunks)),
   mkWorld (w_semaphore w) (w_session w)
           (<[p := old ++ concat chunks]> (w_files w))
           (w_readonly w) (w_requests w)
           (w_io w ++ stream_events p chunks)).
Proof.
  induction chunks as [|c cs IH]; intros h w old Hold.
  - simpl. unfold stream_events. simpl. rewrite !app_nil_r.
    rewrite insert_id by exact Hold. destruct h, w; reflexivity.
  - cbn [stream_chunks]. unfold file_write. unfold_m.
    rewrite (IH _ _ (old ++ c)).
    + simpl. rewrite Hold. simpl. rewrite insert_insert_eq.
      unfold stream_events. simpl. rewrite <- !app_assoc. reflexivity.
    + simpl. rewrite Hold. simpl. apply lookup_insert_eq.
Qed.


Section ResourceProperties.
Context `{Codecs} `{Hashlib}.

(** [_stream_and_hash] in full: what it returns and the world it leaves,
    for a target that cannot be opened, for a body that arrives whole and
    for one that breaks off. *)
Lemma _stream_and_hash_spec resp target h w :
  _stream_and_hash resp target h w =
  if bool_decide (path_str (as_Path target) ∈ w_readonly w)
  then (Raise (mkExn OSError "cannot open file for writing"), w)
  else
    (match snd (resp_iter_chunked resp CHUNK_SIZE) with
     | Some e => Raise e
     | None =>
         Ok (path_str (as_Path target),
             mkSha (fed h ++ concat (fst (resp_iter_chunked resp CHUNK_SIZE))))
     end,
     streamed_world (path_str (as_Path target))
       (fst (resp_iter_chunked resp CHUNK_SIZE)) w).
Proof.
  unfold _stream_and_hash, path_open_wb, file_close. unfold_m.
  case_bool_decide as Hro; [reflexivity|].
  destruct (resp_iter_chunked resp CHUNK_SIZE) as [chunks failure].
  rewrite (stream_chunks_spec _ _ _ _ []) by apply lookup_insert_eq.
  unfold streamed_world, log_io, set_files. simpl.
  rewrite insert_insert_eq, <- !app_assoc. simpl.
  destruct failure; reflexivity.
Qed.

(** [from_response] with a stream target, in full. *)
Lemma from_response_stream_spec url resp now stream_to target w :
  stream_target stream_to = Some target ->
  from_response url resp now stream_to w =
  if bool_decide (path_str (as_Path target) ∈ w_readonly w)
  then (Raise (mkExn OSError "cannot open file for writing"), w)
  else
    (match snd (resp_iter_chunked resp CHUNK_SIZE) with
     | Some e => Raise e
     | None =>
         match response_metadata resp false now with
         | Raise e => Raise e
         | Ok md =>
             Ok (Resource_init url (Some (resp_url resp)) None
                   (Some (hex (sha256
                      (concat (fst (resp_iter_chunked resp CHUNK_SIZE))))))
                   (Some md) (Some now)
                   (Some (PStr (path_str (as_Path target)))))
         end
     end,
     streamed_world (path_str (as_Path target))
       (fst (resp_iter_chunked resp CHUNK_SIZE)) w).
Proof.
  intros Hst. unfold from_response. rewrite Hst. unfold_m.
  rewrite _stream_and_hash_spec.
  case_bool_decide; [reflexivity|].
  destruct (snd (resp_iter_chunked resp CHUNK_SIZE)); [reflexivity|].
  unfold response_metadata, response_mime, response_content_type,
    response_encoding.
  destruct (_extract_metadata _ _ _ _ _ _); reflexivity.
Qed.

(** [from_response] without a stream target, in full. *)
Lemma from_response_buffer_spec url resp now stream_to w :
  stream_target stream_to = None ->
  from_response url resp now stream_to w =
  (match resp_read resp with
   | Raise e => Raise e
   | Ok raw =>
       match response_metadata resp true now with
       | Raise e => Raise e
       | Ok md =>
           Ok (Resource_init url (Some (resp_url resp))
                 (Some (decompress raw (response_encoding resp) false))
                 (Some (hex (sha256
                    (decompress raw (response_encoding resp) false))))
                 (Some md) (Some now) None)
       end
   end, w).
Proof.
  intros Hst. unfold from_response, _read_and_decompress. rewrite Hst. unfold_m.
  destruct (resp_read resp); [|reflexivity].
  unfold response_metadata, response_mime, response_content_type,
    response_encoding.
  destruct (_extract_metadata _ _ _ _ _ _); reflexivity.
Qed.

(** What a successful [from_response] did, path by path. *)
Lemma from_response_buffered url resp now stream_to w r w' :
  stream_target stream_to = None ->
  from_response url resp now stream_to w = (Ok r, w') ->
  exists raw md,
    resp_read resp = Ok raw
    /\ response_metadata resp true now = Ok md
    /\ w' = w
    /\ r = Resource_init url (Some (resp_url resp))
             (Some (decompress raw (response_encoding resp) false))
             (Some (hex (sha256 (decompress raw (response_encoding resp) false))))
             (Some md) (Some now) None.
Proof.
  intros Hst. rewrite from_response_buffer_spec by exact Hst.
  destruct (resp_read resp) as [raw | e]; [|discriminate].
  destruct (response_metadata resp true now) as [md | e]; [|discriminate].
  intros [= <- <-]. exists raw, md. repeat split.
Qed.

Lemma from_response_streamed url resp now stream_to target w r w' :
  stream_target stream_to = Some target ->
  from_response url resp now stream_to w = (Ok r, w') ->
  exists chunks md,
    resp_iter_chunked resp CHUNK_SIZE = (chunks, None)
    /\ response_metadata resp false now = Ok md
    /\ (path_str (as_Path target) ∉ w_readonly w)
    /\ w' = streamed_world (path_str (as_Path target)) chunks w
    /\ r = Resource_init url (Some (resp_url resp)) None
             (Some (hex (sha256 (concat chunks))))
             (Some md) (Some now) (Some (PStr (path_str (as_Path target)))).
Proof.
  intros Hst. rewrite (from_response_stream_spec _ _ _ _ target) by exact Hst.
  case_bool_decide as Hro; [discriminate|].
  destruct (resp_iter_chunked resp CHUNK_SIZE) as [chunks [e|]]; [discriminate|].
  simpl. destruct (response_metadata resp false now) as [md | e]; [|discriminate].
  intros [= <- <-]. exists chunks, md. repeat split. exact Hro.
Qed.

(** [from_response] keeps the session, the semaphore, the requests and
    the set of unwritable paths, however it ends. *)
Lemma from_response_keeps url resp now stream_to w :
  let w' := snd (from_response url resp now stream_to w) in
  w_session w' = w_session w /\ w_semaphore w' = w_semaphore w
  /\ w_requests w' = w_requests w /\ w_readonly w' = w_readonly w.
Proof.
  destruct (stream_target stream_to) as [target|] eqn:Hst.
  - rewrite (from_response_stream_spec _ _ _ _ target) by exact Hst.
    case_bool_decide; repeat split.
  - rewrite from_response_buffer_spec by exact Hst. repeat split.
Qed.
End ResourceProperties.

(** ** String facts for the MIME type *)

Lemma split_head_spec (sep : ascii) (s : string) :
  exists rest,
    s = split_head sep s +:+ rest
    /\ (sep ∉ list_ascii_of_string (split_head sep s))
    /\ (rest = "" \/ exists rest', rest = String sep rest').
Proof.
  induction s as [|c s IH].
  - exists "". split; [reflexivity|]. split; [apply not_elem_of_nil | left; reflexivity].
  - simpl. case_bool_decide as Hc.
    + subst c. exists (String sep s). split; [reflexivity|].
      split; [apply not_elem_of_nil | right; eexists; reflexivity].
    + destruct IH as (rest & Hs & Hno & Hrest). exists rest.
      split; [change (String c s = String c (split_head sep s +:+ rest));
              f_equal; exact Hs|].
      split; [|exact Hrest]. simpl. rewrite elem_of_cons. intros [-> | Hin]; [congruence|].
      exact (Hno Hin).
Qed.

Lemma split_head_no_sep (sep : ascii) (s : string) :
  sep ∉ list_ascii_of_string s -> split_head sep s = s.
Proof.
  induction s as [|c s IH]; [reflexivity|]. simpl. rewrite elem_of_cons.
  intros Hno. case_bool_decide as Hc; [subst c; tauto|].
  f_equal. apply IH. tauto.
Qed.

(** ** The chunk iterator of [DummyResp] *)

Lemma slice_chunk (body : bytes) i n : slice body i (i + n) = take n (drop i body).
Proof. unfold slice. f_equal. lia. Qed.

Lemma concat_slices (body : bytes) n q :
  concat ((fun i => slice body i (i + n)) <$> ((fun k => k * n)%nat <$> seq 0 q))
  = take (q * n) body.
Proof.
  induction q as [|q IH]; [reflexivity|].
  rewrite seq_S, !fmap_app, concat_app, IH. simpl.
  rewrite app_nil_r, slice_chunk, take_take_drop. f_equal. lia.
Qed.

Lemma py_range_covers stop step :
  (0 < step)%nat -> (stop <= ((stop + step - 1) `div` step) * step)%nat.
Proof.
  intros Hstep.
  pose proof (Nat.div_mod_eq (stop + step - 1) step) as Hdm.
  pose proof (Nat.mod_upper_bound (stop + step - 1) step ltac:(lia)) as Hlt.
  nia.
Qed.

(** ** More on the chunk iterator of [DummyResp] *)

Lemma py_range_last stop step q :
  (0 < step)%nat -> q = ((stop + step - 1) `div` step)%nat -> (0 < q)%nat ->
  ((q - 1) * step < stop)%nat.
Proof.
  intros Hstep -> Hq.
  pose proof (Nat.div_mod_eq (stop + step - 1) step) as Hdm.
  pose proof (Nat.mod_upper_bound (stop + step - 1) step ltac:(lia)) as Hlt.
  nia.
Qed.

(** For a positive chunk size the iterator yields the whole body, in
    pieces no longer than the chunk size, and ends normally. *)
Lemma dummy_iter_chunked_spec (body : bytes) (chunk_size : Z) :
  0 < chunk_size ->
  exists chunks,
    dummy_iter_chunked body chunk_size = (chunks, None)
    /\ concat chunks = body
    /\ Forall (fun c => Z.of_nat (length c) <= chunk_size) chunks.
Proof.
  intros Hpos. unfold dummy_iter_chunked.
  destruct (Z.eqb_spec chunk_size 0); [lia|].
  destruct (Z.ltb_spec chunk_size 0); [lia|].
  eexists. split; [reflexivity|]. split.
  - unfold py_range. rewrite concat_slices. apply take_ge.
    apply py_range_covers. lia.
  - apply Forall_fmap, Forall_forall. intros i _. simpl.
    rewrite slice_chunk, length_take. lia.
Qed.

Lemma DummyResp_delivers url headers status body encoding :
  delivers (DummyResp url headers status body encoding) body.
Proof.
  split; [reflexivity|]. intros n Hn. simpl.
  destruct (dummy_iter_chunked_spec body n Hn) as (chunks & Hd & Hcat & _).
  exists chunks. split; assumption.
Qed.

(** ** core.py: construction and session lifecycle *)

Example Fetcher_init_example : Fetcher_init example_fetcher ∅ ∅ = Ok example_world.
Proof. reflexivity. Qed.

Lemma Fetcher_init_negative self files readonly :
  concurrency self < 0 -> exists e, Fetcher_init self files readonly = Raise e.
Proof.
  intros Hneg. unfold Fetcher_init, Semaphore_init.
  destruct (Z.ltb_spec (concurrency self) 0); [eexists; reflexivity | lia].
Qed.

(** After [aclose] no open session is left, closing again changes
    nothing, and the next [_ensure_session] makes a fresh session. *)
Lemma aclose_idempotent w : aclose (aclose w) = aclose w.
Proof.
  unfold aclose. destruct (w_session w) as [s|] eqn:Hs.
  - destruct (session_closed s) eqn:Hc; simpl; rewrite ?Hs, ?Hc; reflexivity.
  - rewrite Hs. reflexivity.
Qed.

Lemma _ensure_session_after_aclose self w :
  w_session (_ensure_session self (aclose w)) =
  Some (mkSession (timeout self) false).
Proof.
  unfold _ensure_session, aclose. destruct (w_session w) as [s|] eqn:Hs.
  - destruct (session_closed s) eqn:Hc; simpl; rewrite ?Hs, ?Hc; reflexivity.
  - rewrite Hs. reflexivity.
Qed.

(** ** core.py: the retry loop *)

Lemma retriable_inv {A} (r : Result A) :
  retriable r = true ->
  exists e, r = Raise e /\ is_ValueError (exn_cls e) = false.
Proof.
  destruct r as [a | e]; simpl; [discriminate|].
  intros He. exists e. split; [reflexivity|].
  destruct (is_ValueError (exn_cls e)); [discriminate | reflexivity].
Qed.

Lemma backoffs_length k : length (backoffs k) = k.
Proof. unfold backoffs. rewrite length_fmap. apply length_seq. Qed.

Lemma backoffs_lookup k i :
  (i < k)%nat -> backoffs k !! i = Some (backoff (Z.of_nat i + 1)).
Proof.
  intros Hi. unfold backoffs. rewrite list_lookup_fmap.
  rewrite lookup_seq_lt by assumption. simpl. do 2 f_equal. lia.
Qed.

Lemma backoff_double n : 0 <= n -> backoff (n + 1) = 2 * backoff n.
Proof.
  intros Hn. unfold backoff, delay_base.
  rewrite Z.pow_add_r by lia. lia.
Qed.

(** ** The retry loop, whatever the attempts do *)

Lemma total_sleep_app l1 l2 : total_sleep (l1 ++ l2) = total_sleep l1 + total_sleep l2.
Proof. unfold total_sleep. induction l1 as [|x l IH]; simpl; lia. Qed.

Lemma backoffs_S k : backoffs (S k) = backoffs k ++ [backoff (Z.of_nat (S k))].
Proof. unfold backoffs. rewrite seq_S, fmap_app. reflexivity. Qed.

Lemma total_sleep_backoffs k : total_sleep (backoffs k) = 2 ^ (Z.of_nat k + 1) - 2.
Proof.
  induction k as [|k IH]; [reflexivity|].
  rewrite backoffs_S, total_sleep_app, IH. unfold total_sleep, backoff, delay_base.
  simpl foldr. rewrite !Nat2Z.inj_succ, <- !Z.add_1_r.
  rewrite (Z.pow_add_r 2 (Z.of_nat k + 1) 1) by lia. lia.
Qed.

Section RetryProperties.
Context `{Codecs} `{Hashlib} `{Network}.
Variable self_fetch_once :
  string -> string -> option PathArg -> option (gmap string string) ->
  M Resource.
Variable self : Fetcher.
Variables (url method : string) (stream_to : option PathArg)
          (headers : option (gmap string string)).

Local Abbreviation once := (self_fetch_once url method stream_to headers).
Local Abbreviation after := (world_after self_fetch_once url method stream_to headers).
Local Abbreviation nth_outcome := (outcome self_fetch_once url method stream_to headers).
Local Abbreviation loop fuel :=
  (retry_loop self_fetch_once self fuel url method stream_to headers).

Lemma world_after_shift n w : after (S n) w = after n (snd (once w)).
Proof.
  induction n as [|n IH]; [reflexivity|].
  change (after (S (S n)) w) with (snd (once (after (S n) w))).
  rewrite IH. reflexivity.
Qed.

Lemma outcome_shift n w : nth_outcome (S n) w = nth_outcome n (snd (once w)).
Proof. unfold outcome. rewrite world_after_shift. reflexivity. Qed.

(** One failed attempt that is retried: the loop sleeps
    [delay_base * 2 ^ attempt] and goes round again. *)
Lemma retry_loop_retry fuel attempt slept w e w' :
  once w = (Raise e, w') ->
  is_ValueError (exn_cls e) = false ->
  attempt + 1 ≠ retries self ->
  loop (S fuel) attempt slept w =
  loop fuel (attempt + 1) (slept ++ [backoff (attempt + 1)]) w'.
Proof.
  intros Hw He Hn. simpl. rewrite Hw, He.
  destruct (Z.eqb_spec (attempt + 1) (retries self)); [contradiction|].
  reflexivity.
Qed.

(** [k] failed attempts in a row, none of them the last one allowed. *)
Lemma retry_loop_failures k : forall fuel attempt slept w,
  (forall i, (i < k)%nat ->
      retriable (nth_outcome i w) = true
      /\ attempt + Z.of_nat (S i) ≠ retries self) ->
  loop (k + fuel)%nat attempt slept w =
  loop fuel (attempt + Z.of_nat k)
       (slept ++ ((fun i => backoff (attempt + Z.of_nat (S i))) <$> seq 0 k))
       (after k w).
Proof.
  induction k as [|k IH]; intros fuel attempt slept w Hk.
  - simpl. rewrite Z.add_0_r, app_nil_r. reflexivity.
  - destruct (Hk 0%nat ltac:(lia)) as [Hfirst Hne].
    apply retriable_inv in Hfirst as (e & He & Hv).
    unfold outcome in He. simpl in He.
    destruct (once w) as [r w'] eqn:Hw. simpl in He. subst r.
    change (S k + fuel)%nat with (S (k + fuel)).
    rewrite (retry_loop_retry _ _ _ _ _ _ Hw Hv) by (revert Hne; lia).
    rewrite IH.
    + rewrite world_after_shift, Hw. simpl snd.
      rewrite <- app_assoc. simpl app.
      rewrite <- fmap_S_seq, <- list_fmap_compose.
      f_equal; [lia|]. f_equal.
      * f_equal. apply list_fmap_ext. intros _ i _. simpl. f_equal. lia.
    + intros i Hi. destruct (Hk (S i) ltac:(lia)) as [Hr Hn].
      rewrite outcome_shift, Hw in Hr. split; [exact Hr|].
      revert Hn. lia.
Qed.

Lemma retry_loop_from_start k fuel w :
  (forall i, (i < k)%nat ->
      retriable (nth_outcome i w) = true /\ Z.of_nat (S i) ≠ retries self) ->
  loop (k + fuel)%nat 0 [] w = loop fuel (Z.of_nat k) (backoffs k) (after k w).
Proof.
  intros Hk. rewrite retry_loop_failures by exact Hk. reflexivity.
Qed.

(** An attempt that ends the loop: the run has made one attempt more and
    slept nothing more. *)
Lemma retry_loop_decisive fuel attempt slept w :
  decisive self (attempt + 1) (fst (once w)) = true ->
  exists run,
    loop (S fuel) attempt slept w = Some run
    /\ run_attempts run = attempt + 1
    /\ run_slept run = slept
    /\ run_world run = snd (once w).
Proof.
  intros Hdec. simpl.
  destruct (once w) as [[r | e] w'] eqn:Hw; simpl in Hdec |- *.
  - eexists. split; [reflexivity|]. repeat split.
  - destruct (is_ValueError (exn_cls e)); simpl in Hdec.
    + eexists. split; [reflexivity|]. repeat split.
    + rewrite Hdec. eexists. split; [reflexivity|]. repeat split.
Qed.

(** More fuel does not change a finished run. *)
Lemma retry_loop_fuel_mono fuel : forall fuel' attempt slept w run,
  (fuel <= fuel')%nat ->
  loop fuel attempt slept w = Some run ->
  loop fuel' attempt slept w = Some run.
Proof.
  induction fuel as [|fuel IH]; intros fuel' attempt slept w run Hle Hrun;
    [discriminate|].
  destruct fuel' as [|fuel']; [lia|].
  simpl in *. destruct (once w) as [[r | e] w']; [exact Hrun|].
  destruct (is_ValueError (exn_cls e)); [exact Hrun|].
  destruct (attempt + 1 =? retries self)%Z; [exact Hrun|].
  apply IH; [lia | exact Hrun].
Qed.

(** [k] retried failures, then a success. *)
Lemma retry_loop_success k fuel w r :
  Z.of_nat k < retries self ->
  (k < fuel)%nat ->
  (forall i, (i < k)%nat -> retriable (nth_outcome i w) = true) ->
  nth_outcome k w = Ok r ->
  loop fuel 0 [] w =
  Some (mkRun (Returned r) (Z.of_nat k + 1) (backoffs k) (after (S k) w)).
Proof.
  intros HkN Hfuel Hfail Hok.
  apply retry_loop_fuel_mono with (fuel := (k + 1)%nat); [lia|].
  rewrite retry_loop_from_start
    by (intros i Hi; split; [apply Hfail; exact Hi | lia]).
  unfold outcome in Hok. simpl.
  destruct (once (after k w)) as [r' w'] eqn:Hw. simpl in Hok. subst r'.
  reflexivity.
Qed.

(** Failures only: the loop gives up at attempt [retries]. *)
Lemma retry_loop_exhausted fuel w :
  0 < retries self ->
  (Z.to_nat (retries self) <= fuel)%nat ->
  (forall i, (Z.of_nat i < retries self) -> retriable (nth_outcome i w) = true) ->
  exists e,
    nth_outcome (Z.to_nat (retries self) - 1) w = Raise e
    /\ loop fuel 0 [] w =
       Some (mkRun (Failed (mkFetchError url (exn_str e))) (retries self)
                   (backoffs (Z.to_nat (retries self) - 1))
                   (after (Z.to_nat (retries self)) w)).
Proof.
  intros HN Hfuel Hfail.
  set (k := (Z.to_nat (retries self) - 1)%nat).
  assert (Hk : Z.of_nat k + 1 = retries self) by lia.
  destruct (retriable_inv _ (Hfail k ltac:(lia))) as (e & He & Hv).
  exists e. split; [exact He|].
  apply retry_loop_fuel_mono with (fuel := (k + 1)%nat); [lia|].
  rewrite retry_loop_from_start
    by (intros i Hi; split; [apply Hfail; lia | lia]).
  unfold outcome in He. simpl.
  replace (Z.to_nat (retries self)) with (S k) by lia.
  simpl. destruct (once (after k w)) as [r' w'] eqn:Hw. simpl in He. subst r'.
  rewrite Hv. rewrite Hk, Z.eqb_refl. reflexivity.
Qed.
(** A property of the world that every attempt keeps and that passes
    from the world of an attempt to the result of the loop. *)
Lemma retry_loop_returned (P : World -> Prop) fuel : forall attempt slept w run r,
  (forall w0, P w0 -> P (snd (once w0))) ->
  P w ->
  loop fuel attempt slept w = Some run ->
  run_result run = Returned r ->
  exists w_in, P w_in /\ once w_in = (Ok r, run_world run).
Proof.
  induction fuel as [|fuel IH]; intros attempt slept w run r Hkeep Hw Hrun Hres;
    [discriminate|].
  simpl in Hrun. destruct (once w) as [[r' | e] w'] eqn:Hw'.
  - injection Hrun as <-. simpl in Hres. injection Hres as ->.
    exists w. split; [exact Hw | exact Hw'].
  - destruct (is_ValueError (exn_cls e)).
    { injection Hrun as <-. discriminate. }
    destruct (attempt + 1 =? retries self)%Z.
    { injection Hrun as <-. discriminate. }
    eapply (IH _ _ w' run r Hkeep); [| exact Hrun | exact Hres].
    specialize (Hkeep w Hw). rewrite Hw' in Hkeep. exact Hkeep.
Qed.

(** The attempts of a finished run, counted in the world: [P n w] is
    kept from one attempt to the next with [n] going up by one. *)
Lemma retry_loop_counted (P : nat -> World -> Prop) fuel :
  forall attempt slept w run n,
  (forall n w0, P n w0 -> P (S n) (snd (once w0))) ->
  P n w ->
  loop fuel attempt slept w = Some run ->
  exists m, run_attempts run = attempt + Z.of_nat (S m)
            /\ P (n + S m)%nat (run_world run).
Proof.
  induction fuel as [|fuel IH]; intros attempt slept w run n Hkeep Hw Hrun;
    [discriminate|].
  simpl in Hrun. specialize (Hkeep n w Hw) as Hw1.
  destruct (once w) as [[r' | e] w'] eqn:Hw'; simpl in Hw1.
  - injection Hrun as <-. exists 0%nat. simpl.
    split; [lia|]. replace (n + 1)%nat with (S n) by lia. exact Hw1.
  - destruct (is_ValueError (exn_cls e)).
    { injection Hrun as <-. exists 0%nat. simpl.
      split; [lia|]. replace (n + 1)%nat with (S n) by lia. exact Hw1. }
    destruct (attempt + 1 =? retries self)%Z.
    { injection Hrun as <-. exists 0%nat. simpl.
      split; [lia|]. replace (n + 1)%nat with (S n) by lia. exact Hw1. }
    destruct (IH _ _ _ _ _ Hkeep Hw1 Hrun) as (m & Hm & HP).
    exists (S m). split; [lia|].
    replace (n + S (S m))%nat with (S n + S m)%nat by lia. exact HP.
Qed.
(** The shape of every finished run: [m] retried failures, then one last
    attempt that decides the result. *)
Lemma retry_loop_shape fuel : forall attempt slept w run,
  loop fuel attempt slept w = Some run ->
  exists m : nat,
    (m < fuel)%nat
    /\ run_attempts run = attempt + Z.of_nat (S m)
    /\ run_slept run =
       slept ++ ((fun i => backoff (attempt + Z.of_nat (S i))) <$> seq 0 m)
    /\ run_world run = after (S m) w
    /\ (forall i, (i < m)%nat ->
           retriable (nth_outcome i w) = true
           /\ attempt + Z.of_nat (S i) ≠ retries self)
    /\ match run_result run with
       | Returned r => nth_outcome m w = Ok r
       | Failed e =>
           exists x, nth_outcome m w = Raise x
                     /\ e = mkFetchError url (exn_str x)
                     /\ (is_ValueError (exn_cls x) = true
                         \/ attempt + Z.of_nat (S m) = retries self)
       end.
Proof.
  induction fuel as [|fuel IH]; intros attempt slept w run Hrun; [discriminate|].
  simpl in Hrun. destruct (once w) as [[r | x] w'] eqn:Hw.
  - injection Hrun as <-. exists 0%nat. simpl.
    unfold outcome. simpl. rewrite Hw, app_nil_r.
    split; [lia|]. split; [lia|]. split; [reflexivity|]. split; [reflexivity|].
    split; [intros i Hi; lia | reflexivity].
  - destruct (is_ValueError (exn_cls x)) eqn:Hv.
    { injection Hrun as <-. exists 0%nat. simpl.
      unfold outcome. simpl. rewrite Hw, app_nil_r.
      split; [lia|]. split; [lia|]. split; [reflexivity|]. split; [reflexivity|].
      split; [intros i Hi; lia|]. exists x. auto. }
    destruct (Z.eqb_spec (attempt + 1) (retries self)) as [Heq | Hne].
    { injection Hrun as <-. exists 0%nat. simpl.
      unfold outcome. simpl. rewrite Hw, app_nil_r.
      split; [lia|]. split; [lia|]. split; [reflexivity|]. split; [reflexivity|].
      split; [intros i Hi; lia|]. exists x. auto. }
    destruct (IH _ _ _ _ Hrun) as (m & Hm & Hatt & Hsl & Hwd & Hfail & Hres).
    exists (S m). split; [lia|]. split; [lia|]. split; [|split; [|split]].
    + rewrite Hsl, <- app_assoc. f_equal. simpl.
      rewrite <- fmap_S_seq, <- list_fmap_compose. f_equal.
      apply list_fmap_ext. intros _ i _. simpl. f_equal. lia.
    + rewrite Hwd. rewrite (world_after_shift (S m)), Hw. reflexivity.
    + intros [|i] Hi.
      * unfold outcome. simpl. rewrite Hw. simpl. rewrite Hv. split; [reflexivity | lia].
      * destruct (Hfail i ltac:(lia)) as [Hr Hn].
        rewrite outcome_shift, Hw. split; [exact Hr | lia].
    + rewrite outcome_shift, Hw. simpl snd.
      destruct (run_result run) as [r | e]; [exact Hres|].
      destruct Hres as (y & Hy & He & Hc). exists y.
      split; [exact Hy|]. split; [exact He|].
      destruct Hc as [Hc | Hc]; [left; exact Hc | right; lia].
Qed.

(** With a positive number of attempts allowed the loop ends within that
    many iterations, whatever the attempts do. *)
Lemma retry_loop_terminates fuel : forall attempt slept w,
  0 <= attempt < retries self ->
  (Z.to_nat (retries self - attempt) <= fuel)%nat ->
  is_Some (loop fuel attempt slept w).
Proof.
  induction fuel as [|fuel IH]; intros attempt slept w Hatt Hfuel; [lia|].
  simpl. destruct (once w) as [[r | x] w']; [eexists; reflexivity|].
  destruct (is_ValueError (exn_cls x)); [eexists; reflexivity|].
  destruct (Z.eqb_spec (attempt + 1) (retries self)); [eexists; reflexivity|].
  apply IH; lia.
Qed.

(** Past the number of attempts allowed, failures that are retried keep
    the loop going for ever. *)
Lemma retry_loop_diverges fuel : forall attempt slept w,
  retries self <= attempt ->
  (forall i, retriable (nth_outcome i w) = true) ->
  loop fuel attempt slept w = None.
Proof.
  induction fuel as [|fuel IH]; intros attempt slept w Hatt Hfail; [reflexivity|].
  simpl. pose proof (Hfail 0%nat) as Hfirst. unfold outcome in Hfirst.
  simpl in Hfirst.
  destruct (once w) as [[r | x] w'] eqn:Hw; simpl in Hfirst; [discriminate|].
  destruct (is_ValueError (exn_cls x)); [discriminate|].
  destruct (Z.eqb_spec (attempt + 1) (retries self)); [lia|].
  apply IH; [lia|]. intros i. specialize (Hfail (S i)).
  rewrite outcome_shift, Hw in Hfail. exact Hfail.
Qed.
End RetryProperties.

(** ** core.py: [fetch] *)

Section FetchProtocol.
Context `{Codecs} `{Hashlib} `{Network}.
Variable self_fetch_once :
  string -> string -> option PathArg -> option (gmap string string) ->
  M Resource.
Variable self : Fetcher.
Variables (url method : string) (stream_to : option PathArg)
          (headers : option (gmap string string)).

Local Abbreviation after := (world_after self_fetch_once url method stream_to headers).
Local Abbreviation nth_outcome := (outcome self_fetch_once url method stream_to headers).

(** [fetch] with a free slot is the retry loop run between taking the
    slot and giving it back. *)
Lemma fetch_unfold fuel w run :
  0 < w_semaphore w ->
  _fetch_with_retries self_fetch_once self fuel url method stream_to headers
    (_ensure_session self (sem_acquire w)) = Some run ->
  fetch self_fetch_once self fuel url method stream_to headers w =
  Some (mkRun (run_result run) (run_attempts run) (run_slept run)
              (sem_release (run_world run))).
Proof.
  intros Hfree Hrun. unfold fetch, sem_locked.
  destruct (Z.leb_spec (w_semaphore w) 0); [lia|].
  rewrite Hrun. reflexivity.
Qed.

(** A [fetch] that ends had a free slot and ran the retry loop. *)
Lemma fetch_inv fuel w run :
  fetch self_fetch_once self fuel url method stream_to headers w = Some run ->
  0 < w_semaphore w
  /\ exists run',
      retry_loop self_fetch_once self fuel url method stream_to headers 0 []
        (_ensure_session self (sem_acquire w)) = Some run'
      /\ run = mkRun (run_result run') (run_attempts run') (run_slept run')
                     (sem_release (run_world run')).
Proof.
  unfold fetch, sem_locked, _fetch_with_retries.
  destruct (Z.leb_spec (w_semaphore w) 0); [discriminate|].
  destruct (retry_loop _ _ _ _ _ _ _ _ _ _) as [run'|]; [|discriminate].
  intros [= <-]. split; [lia|]. exists run'. split; reflexivity.
Qed.

(** C1. A fetcher with [retries = N > 0] and a free slot.  If the first
    [k < N] calls of the single-attempt fetch fail with a retriable error
    and call [k + 1] returns [r], then [fetch] returns [r] after exactly
    [k + 1] attempts; if every call (each of the first [N]) fails with a
    retriable error, then [fetch] raises [FetchError] (with the message
    of the last error) after exactly [N] attempts.  In both cases the world is the one left by
    that many calls, with the slot given back. *)
Theorem fetch_retry_protocol (w : World) (fuel : nat) :
  0 < retries self ->
  0 < w_semaphore w ->
  let w1 := _ensure_session self (sem_acquire w) in
  (forall (k : nat) (r : Resource),
      Z.of_nat k < retries self ->
      (k < fuel)%nat ->
      (forall i, (i < k)%nat -> retriable (nth_outcome i w1) = true) ->
      nth_outcome k w1 = Ok r ->
      fetch self_fetch_once self fuel url method stream_to headers w =
      Some (mkRun (Returned r) (Z.of_nat k + 1) (backoffs k)
                  (sem_release (after (S k) w1))))
  /\ ((forall i, Z.of_nat i < retries self -> retriable (nth_outcome i w1) = true) ->
      (Z.to_nat (retries self) <= fuel)%nat ->
      exists e,
        nth_outcome (Z.to_nat (retries self) - 1) w1 = Raise e
        /\ fetch self_fetch_once self fuel url method stream_to headers w =
           Some (mkRun (Failed (mkFetchError url (exn_str e))) (retries self)
                       (backoffs (Z.to_nat (retries self) - 1))
                       (sem_release (after (Z.to_nat (retries self)) w1)))).
Proof.
  intros HN Hfree w1. split.
  - intros k r Hk Hfuel Hfail Hok.
    rewrite (fetch_unfold fuel w
               (mkRun (Returned r) (Z.of_nat k + 1) (backoffs k) (after (S k) w1)));
      [reflexivity | exact Hfree |].
    apply retry_loop_success; assumption.
  - intros Hfail Hfuel.
    destruct (retry_loop_exhausted self_fetch_once self url method stream_to
                headers fuel w1 HN Hfuel Hfail) as (e & He & Hrun).
    exists e. split; [exact He|].
    rewrite (fetch_unfold fuel w _ Hfree Hrun). reflexivity.
Qed.

(** C2. Every retriable failure that does not exhaust the attempts is
    followed by a sleep of [delay_base * 2 ^ n] seconds, [n] the number
    of the failed attempt counted from 1 and [delay_base = 1].  After [k]
    such failures the loop stands before attempt [k + 1] having slept
    [2 ^ 1; ...; 2 ^ k], in this order; every run that ends after them
    has these [k] delays first in its record, and has made more than [k]
    attempts; and when attempt [k + 1] ends the loop, the run exists, has
    made [k + 1] attempts and has slept exactly these [k] delays.  The
    first delay is 2, the second 4, and each is twice the one before. *)
Theorem backoff_schedule (w : World) (k fuel : nat) :
  (forall i, (i < k)%nat ->
      retriable (nth_outcome i w) = true /\ Z.of_nat (S i) ≠ retries self) ->
  retry_loop self_fetch_once self (k + fuel) url method stream_to headers 0 [] w
  = retry_loop self_fetch_once self fuel url method stream_to headers
      (Z.of_nat k) (backoffs k) (after k w)
  /\ (forall run,
         _fetch_with_retries self_fetch_once self (k + fuel) url method
           stream_to headers w = Some run ->
         Z.of_nat k < run_attempts run
         /\ take k (run_slept run) = backoffs k
         /\ forall i, (i < k)%nat ->
              run_slept run !! i = Some (delay_base * 2 ^ (Z.of_nat i + 1)))
  /\ (decisive self (Z.of_nat k + 1) (nth_outcome k w) = true ->
      exists run,
        _fetch_with_retries self_fetch_once self (k + S fuel) url method
          stream_to headers w = Some run
        /\ run_attempts run = Z.of_nat k + 1
        /\ run_slept run = backoffs k
        /\ run_world run = after (S k) w)
  /\ length (backoffs k) = k
  /\ (forall i, (i < k)%nat ->
         backoffs k !! i = Some (1 * 2 ^ (Z.of_nat i + 1)))
  /\ backoff 1 = 2 /\ backoff 2 = 4
  /\ (forall n, 0 <= n -> backoff (n + 1) = 2 * backoff n).
Proof.
  intros Hk.
  pose proof (retry_loop_from_start self_fetch_once self url method stream_to
                headers k) as Hstart.
  split; [apply Hstart; exact Hk|].
  split.
  { intros run. unfold _fetch_with_retries. rewrite Hstart by exact Hk.
    intros Hrun. apply retry_loop_shape in Hrun as (m & _ & Hatt & Hsl & _).
    split; [lia|].
    assert (Htake : take k (run_slept run) = backoffs k).
    { rewrite Hsl. rewrite take_app_length' by (symmetry; apply backoffs_length). reflexivity. }
    split; [exact Htake|].
    intros i Hi. rewrite <- (lookup_take_lt (run_slept run) k i) by lia.
    rewrite Htake. apply backoffs_lookup. exact Hi. }
  split.
  { intros Hdec. unfold _fetch_with_retries. rewrite Hstart by exact Hk.
    apply (retry_loop_decisive self_fetch_once self url method stream_to
             headers fuel (Z.of_nat k) (backoffs k) (after k w)).
    exact Hdec. }
  split; [apply backoffs_length|].
  split; [intros i Hi; apply backoffs_lookup; exact Hi|].
  split; [reflexivity|]. split; [reflexivity|].
  exact backoff_double.
Qed.

(** X1. However a call of [fetch] ends, it has made at least one attempt,
    and the delays it slept are fixed by the number [n] of attempts:
    [2; 4; ...; 2^(n-1)], one after each attempt but the last, [2^n - 2]
    seconds in all. *)
Theorem fetch_sleep_schedule (fuel : nat) (w : World) (run : Run) :
  fetch self_fetch_once self fuel url method stream_to headers w = Some run ->
  1 <= run_attempts run
  /\ run_slept run = backoffs (Z.to_nat (run_attempts run) - 1)
  /\ total_sleep (run_slept run) = 2 ^ run_attempts run - 2.
Proof.
  intros Hrun. apply fetch_inv in Hrun as (_ & run' & Hloop & ->). simpl.
  apply retry_loop_shape in Hloop as (m & _ & Hatt & Hsl & _).
  rewrite Hatt, Hsl. simpl app.
  replace (Z.to_nat (0 + Z.of_nat (S m)) - 1)%nat with m by lia.
  split; [lia|]. split; [reflexivity|].
  change ((fun i => backoff (0 + Z.of_nat (S i))) <$> seq 0 m) with (backoffs m).
  rewrite total_sleep_backoffs. f_equal. f_equal. lia.
Qed.

(** X2. A [FetchError] raised by [fetch] carries the URL of the call and
    the text of the exception of the last attempt; every earlier attempt
    failed with a retriable exception; and the last one was either a
    [ValueError] or attempt number [retries]. *)
Theorem fetch_failure_report (fuel : nat) (w : World) (run : Run) (e : FetchError) :
  fetch self_fetch_once self fuel url method stream_to headers w = Some run ->
  run_result run = Failed e ->
  let w1 := _ensure_session self (sem_acquire w) in
  let last := (Z.to_nat (run_attempts run) - 1)%nat in
  fe_url e = url
  /\ (forall i, (i < last)%nat -> retriable (nth_outcome i w1) = true)
  /\ exists x,
      nth_outcome last w1 = Raise x
      /\ fe_message e = exn_str x
      /\ (is_ValueError (exn_cls x) = true \/ run_attempts run = retries self).
Proof.
  intros Hrun Hres. apply fetch_inv in Hrun as (_ & run' & Hloop & ->).
  simpl in *.
  apply retry_loop_shape in Hloop as (m & _ & Hatt & _ & _ & Hfail & Hlast).
  rewrite Hres in Hlast. destruct Hlast as (x & Hx & -> & Hc).
  rewrite Hatt. replace (Z.to_nat (0 + Z.of_nat (S m)) - 1)%nat with m by lia.
  split; [reflexivity|].
  split; [intros i Hi; apply (Hfail i Hi)|].
  exists x. split; [exact Hx|]. split; [reflexivity|].
  destruct Hc as [Hc | Hc]; [left; exact Hc | right; lia].
Qed.

(** X3. With [retries = N > 0] and a free slot, [fetch] ends whatever the
    attempts do: fuel for [N] iterations is enough, and the run makes at
    most [N] attempts. *)
Theorem fetch_terminates (fuel : nat) (w : World) :
  0 < retries self ->
  0 < w_semaphore w ->
  (Z.to_nat (retries self) <= fuel)%nat ->
  exists run,
    fetch self_fetch_once self fuel url method stream_to headers w = Some run
    /\ 1 <= run_attempts run <= retries self.
Proof.
  intros HN Hfree Hfuel.
  destruct (retry_loop_terminates self_fetch_once self url method stream_to
              headers fuel 0 [] (_ensure_session self (sem_acquire w)))
    as [run' Hloop]; [lia | rewrite Z.sub_0_r; exact Hfuel |].
  eexists. split; [apply fetch_unfold; [exact Hfree | exact Hloop]|]. simpl.
  apply retry_loop_shape in Hloop as (m & _ & Hatt & _ & _ & Hfail & _).
  split; [lia|].
  destruct (Z_lt_le_dec (retries self) (run_attempts run')) as [Hgt|]; [|lia].
  destruct (Hfail (Z.to_nat (retries self) - 1)%nat ltac:(lia)) as [_ Hne].
  lia.
Qed.

(** X4. With [retries <= 0] the comparison [attempt == self.retries]
    never holds: when every attempt fails with a retriable exception,
    [fetch] never ends, whatever the fuel. *)
Theorem fetch_never_gives_up (w : World) :
  retries self <= 0 ->
  (forall i, retriable (nth_outcome i (_ensure_session self (sem_acquire w))) = true) ->
  forall fuel,
    fetch self_fetch_once self fuel url method stream_to headers w = None.
Proof.
  intros HN Hfail fuel. unfold fetch, _fetch_with_retries.
  destruct (sem_locked w); [reflexivity|].
  rewrite retry_loop_diverges; [reflexivity | lia | exact Hfail].
Qed.
End FetchProtocol.

Lemma fetch_retry_protocol_witness :
  (exists r,
      fetch (@_fetch_once framing_codecs sum_hashlib
               (flaky_network 2 example_response))
            example_fetcher 5 example_url "GET" None None example_world
      = Some (mkRun (Returned r) 3 [2; 4]
                (sem_release
                   (world_after
                      (@_fetch_once framing_codecs sum_hashlib
                         (flaky_network 2 example_response))
                      example_url "GET" None None 3
                      (_ensure_session example_fetcher (sem_acquire example_world))))))
  /\ (exists e,
         fetch (@_fetch_once framing_codecs sum_hashlib
                  (flaky_network 7 example_response))
               example_fetcher 5 example_url "GET" None None example_world
         = Some (mkRun (Failed (mkFetchError example_url (exn_str e))) 3 [2; 4]
                   (sem_release
                      (world_after
                         (@_fetch_once framing_codecs sum_hashlib
                            (flaky_network 7 example_response))
                         example_url "GET" None None 3
                         (_ensure_session example_fetcher
                            (sem_acquire example_world)))))).
Proof.
  split.
  - destruct (fetch_retry_protocol
                (@_fetch_once framing_codecs sum_hashlib
                   (flaky_network 2 example_response))
                example_fetcher example_url "GET" None None example_world 5
                eq_refl eq_refl) as [Hsuccess _].
    eexists. apply (Hsuccess 2%nat); [reflexivity | lia | | vm_compute; reflexivity].
    intros [|[|i]] Hi; [reflexivity | reflexivity | lia].
  - destruct (fetch_retry_protocol
                (@_fetch_once framing_codecs sum_hashlib
                   (flaky_network 7 example_response))
                example_fetcher example_url "GET" None None example_world 5
                eq_refl eq_refl) as [_ Hfailure].
    destruct Hfailure as (e & _ & Hrun).
    + intros [|[|[|i]]] Hi; [reflexivity | reflexivity | reflexivity |].
      exfalso. simpl in Hi. lia.
    + simpl. lia.
    + exists e. exact Hrun.
Defined.

Lemma backoff_schedule_witness :
  exists run,
    _fetch_with_retries
      (@_fetch_once framing_codecs sum_hashlib (flaky_network 2 example_response))
      example_fetcher (2 + 1) example_url "GET" None None
      (_ensure_session example_fetcher (sem_acquire example_world))
    = Some run
    /\ run_attempts run = 3
    /\ run_slept run = [2; 4].
Proof.
  destruct (backoff_schedule
              (@_fetch_once framing_codecs sum_hashlib
                 (flaky_network 2 example_response))
              example_fetcher example_url "GET" None None
              (_ensure_session example_fetcher (sem_acquire example_world))
              2 0) as (_ & _ & Hrun & _).
  - intros [|[|i]] Hi; [split; [reflexivity | discriminate] ..|lia].
  - destruct (Hrun eq_refl) as (run & Heq & Hatt & Hsl & _).
    exists run. split; [exact Heq|]. split; [exact Hatt | exact Hsl].
Defined.

(** ** Examples for the retry loop *)

Lemma fetch_sleep_schedule_witness :
  exists run,
    fetch (@_fetch_once framing_codecs sum_hashlib (flaky_network 2 example_response))
      example_fetcher 5 example_url "GET" None None example_world = Some run
    /\ 1 <= run_attempts run
    /\ run_slept run = backoffs (Z.to_nat (run_attempts run) - 1)
    /\ total_sleep (run_slept run) = 2 ^ run_attempts run - 2.
Proof.
  eexists. split; [vm_compute; reflexivity|].
  eapply (fetch_sleep_schedule
            (@_fetch_once framing_codecs sum_hashlib (flaky_network 2 example_response))
            example_fetcher example_url "GET" None None 5 example_world).
  vm_compute. reflexivity.
Defined.

Lemma fetch_failure_report_witness :
  exists run e,
    fetch (@_fetch_once framing_codecs sum_hashlib (flaky_network 7 example_response))
      example_fetcher 5 example_url "GET" None None example_world = Some run
    /\ run_result run = Failed e
    /\ fe_url e = example_url
    /\ fe_message e = "Simulated network error".
Proof.
  eexists. eexists. split; [vm_compute; reflexivity|]. split; [reflexivity|].
  destruct (fetch_failure_report
              (@_fetch_once framing_codecs sum_hashlib (flaky_network 7 example_response))
              example_fetcher example_url "GET" None None 5 example_world _ _
              ltac:(vm_compute; reflexivity) eq_refl) as (Hurl & _ & _).
  split; [exact Hurl | reflexivity].
Defined.

Lemma fetch_terminates_witness :
  exists run,
    fetch mock_fetch_once_failing example_fetcher 3 example_url "GET" None None
      example_world = Some run
    /\ 1 <= run_attempts run <= 3.
Proof.
  apply (fetch_terminates mock_fetch_once_failing example_fetcher example_url
           "GET" None None 3 example_world);
    [reflexivity | reflexivity | simpl; lia].
Defined.

Lemma fetch_never_gives_up_witness :
  fetch mock_fetch_once_failing (mkFetcher 1 10 0) 50 example_url "GET" None None
    example_world = None.
Proof.
  apply (fetch_never_gives_up mock_fetch_once_failing (mkFetcher 1 10 0)
           example_url "GET" None None example_world);
    [simpl; lia | intros i; reflexivity].
Defined.


(** ** core.py: one attempt of an unpatched fetcher *)

Section AttemptProperties.
Context `{Codecs} `{Hashlib} `{Network}.

Lemma _fetch_once_unsupported url method stream_to headers w :
  method ≠ "GET" -> method ≠ "POST" ->
  _fetch_once url method stream_to headers w =
  (Raise (mkExn ValueError ("Unsupported HTTP method: " +:+ method)), w).
Proof.
  intros Hget Hpost. unfold _fetch_once, HttpMethod_GET, HttpMethod_POST.
  rewrite !bool_decide_eq_false_2 by assumption. reflexivity.
Qed.

(** [_fetch_once] with a supported method: without a session the
    attribute access fails; a closed session may refuse; otherwise the
    request is logged and answered, and the answer, if there is one,
    goes to [from_response]. *)
Lemma _fetch_once_spec url method stream_to headers w :
  method = "GET" \/ method = "POST" ->
  _fetch_once url method stream_to headers w =
  match w_session w with
  | None =>
      (Raise (mkExn AttributeError
                ("'NoneType' object has no attribute '"
                 +:+ (if bool_decide (method = "GET") then "get" else "post")
                 +:+ "'")), w)
  | Some s =>
      match (if session_closed s then closed_session_error else None) with
      | Some e => (Raise e, w)
      | None =>
          let req := mkRequest method url (headers_or_default headers) in
          match transport (length (w_requests w)) req with
          | Raise e => (Raise e, log_request req w)
          | Ok resp =>
              from_response url resp (clock (S (length (w_requests w))))
                stream_to (log_request req w)
          end
      end
  end.
Proof.
  intros Hm.
  unfold _fetch_once, HttpMethod_GET, HttpMethod_POST, datetime_now,
    session_request. unfold_m.
  destruct Hm as [-> | ->]; simpl;
    (destruct (w_session w) as [s|]; [|reflexivity]);
    (destruct (if session_closed s then closed_session_error else None);
       [reflexivity|]);
    (destruct (transport _ _); [|reflexivity]);
    simpl; rewrite length_app; simpl;
    replace (length (w_requests w) + 1)%nat with (S (length (w_requests w))) by lia;
    reflexivity.
Qed.

(** An attempt keeps the session and the set of unwritable paths. *)
Lemma _fetch_once_keeps url method stream_to headers w :
  let w' := snd (_fetch_once url method stream_to headers w) in
  w_session w' = w_session w /\ w_readonly w' = w_readonly w.
Proof.
  destruct (decide (method = "GET" \/ method = "POST")) as [Hm | Hm].
  - rewrite _fetch_once_spec by exact Hm.
    destruct (w_session w) as [s|] eqn:Hs; [|split; [exact Hs | reflexivity]].
    destruct (if session_closed s then closed_session_error else None);
      [split; [exact Hs | reflexivity]|].
    simpl. destruct (transport _ _) as [resp | e]; [|split; [exact Hs | reflexivity]].
    match goal with
    | |- context [from_response ?u ?r ?n ?st ?w0] =>
        destruct (from_response_keeps u r n st w0) as (Hss & _ & _ & Hro)
    end.
    simpl in *. rewrite Hss, Hro. split; [exact Hs | reflexivity].
  - rewrite _fetch_once_unsupported by tauto. split; reflexivity.
Qed.

(** With an open session, an attempt with a supported method issues
    exactly one request, built from the arguments. *)
Lemma _fetch_once_request url method stream_to headers w s :
  w_session w = Some s ->
  session_closed s = false ->
  method = "GET" \/ method = "POST" ->
  let w' := snd (_fetch_once url method stream_to headers w) in
  w_requests w' =
    w_requests w ++ [mkRequest method url (headers_or_default headers)]
  /\ w_session w' = Some s.
Proof.
  intros Hs Hopen Hm.
  destruct (_fetch_once_keeps url method stream_to headers w) as [Hss _].
  simpl in *. split; [|rewrite Hss; exact Hs].
  rewrite _fetch_once_spec by exact Hm. rewrite Hs, Hopen. simpl.
  destruct (transport _ _) as [resp | e]; [|reflexivity].
  match goal with
  | |- context [from_response ?u ?r ?n ?st ?w0] =>
      destruct (from_response_keeps u r n st w0) as (_ & _ & Hr & _)
  end.
  simpl in Hr. rewrite Hr. reflexivity.
Qed.

(** A successful attempt: the network answered the request and
    [from_response] built the resource from the answer. *)
Lemma _fetch_once_ok url method stream_to headers w r w' :
  _fetch_once url method stream_to headers w = (Ok r, w') ->
  exists resp,
    (method = "GET" \/ method = "POST")
    /\ transport (length (w_requests w))
         (mkRequest method url (headers_or_default headers)) = Ok resp
    /\ from_response url resp (clock (S (length (w_requests w)))) stream_to
         (log_request (mkRequest method url (headers_or_default headers)) w)
       = (Ok r, w').
Proof.
  destruct (decide (method = "GET" \/ method = "POST")) as [Hm | Hm].
  - rewrite _fetch_once_spec by exact Hm.
    destruct (w_session w) as [s|]; [|discriminate].
    destruct (if session_closed s then closed_session_error else None);
      [discriminate|].
    simpl. destruct (transport _ _) as [resp | e] eqn:Ht; [|discriminate].
    intros Hfr. exists resp. split; [exact Hm|]. split; [reflexivity | exact Hfr].
  - rewrite _fetch_once_unsupported by tauto. discriminate.
Qed.

(** An attempt does not touch the semaphore. *)
Lemma _fetch_once_semaphore url method stream_to headers w :
  w_semaphore (snd (_fetch_once url method stream_to headers w)) = w_semaphore w.
Proof.
  destruct (decide (method = "GET" \/ method = "POST")) as [Hm | Hm].
  - rewrite _fetch_once_spec by exact Hm.
    destruct (w_session w) as [s|]; [|reflexivity].
    destruct (if session_closed s then closed_session_error else None);
      [reflexivity|].
    simpl. destruct (transport _ _) as [resp | e]; [|reflexivity].
    match goal with
    | |- context [from_response ?u ?r ?n ?st ?w0] =>
        destruct (from_response_keeps u r n st w0) as (_ & Hsem & _)
    end.
    simpl in Hsem. rewrite Hsem. reflexivity.
  - rewrite _fetch_once_unsupported by tauto. reflexivity.
Qed.

(** Without a stream target an attempt leaves the files and the
    streaming log alone. *)
Lemma _fetch_once_buffered_files url method stream_to headers w :
  stream_target stream_to = None ->
  let w' := snd (_fetch_once url method stream_to headers w) in
  w_files w' = w_files w /\ w_io w' = w_io w.
Proof.
  intros Hst. destruct (decide (method = "GET" \/ method = "POST")) as [Hm | Hm].
  - rewrite _fetch_once_spec by exact Hm.
    destruct (w_session w) as [s|]; [|split; reflexivity].
    destruct (if session_closed s then closed_session_error else None);
      [split; reflexivity|].
    simpl. destruct (transport _ _) as [resp | e]; [|split; reflexivity].
    rewrite from_response_buffer_spec by exact Hst. split; reflexivity.
  - rewrite _fetch_once_unsupported by tauto. split; reflexivity.
Qed.

End AttemptProperties.

(** ** core.py: [fetch] of an unpatched fetcher *)

Section FetcherProperties.
Context `{Codecs} `{Hashlib} `{Network}.
Variable self : Fetcher.
Variables (url method : string) (stream_to : option PathArg)
          (headers : option (gmap string string)).

Lemma _ensure_session_some w : exists s, w_session (_ensure_session self w) = Some s.
Proof.
  unfold _ensure_session. destruct (w_session w) as [s|] eqn:Hs.
  - destruct (session_closed s); eexists; simpl; [reflexivity | exact Hs].
  - eexists. reflexivity.
Qed.

(** The session [_ensure_session] leaves is open. *)
Lemma _ensure_session_open w :
  exists s, w_session (_ensure_session self w) = Some s /\ session_closed s = false.
Proof.
  unfold _ensure_session. destruct (w_session w) as [s|] eqn:Hs.
  - destruct (session_closed s) eqn:Hc; eexists; simpl;
      (split; [first [reflexivity | exact Hs] | first [reflexivity | exact Hc]]).
  - eexists. split; reflexivity.
Qed.

Lemma _ensure_session_frame w :
  w_requests (_ensure_session self w) = w_requests w
  /\ w_io (_ensure_session self w) = w_io w
  /\ w_semaphore (_ensure_session self w) = w_semaphore w
  /\ w_files (_ensure_session self w) = w_files w.
Proof.
  unfold _ensure_session. destruct (w_session w) as [s|]; [|repeat split].
  destruct (session_closed s); repeat split.
Qed.

Lemma _ensure_session_spec w :
  _ensure_session self w =
  if session_open w then w
  else set_session (Some (mkSession (timeout self) false)) w.
Proof.
  unfold _ensure_session, session_open.
  destruct (w_session w) as [s|]; [|reflexivity].
  destruct (session_closed s); reflexivity.
Qed.

(** A resource returned by [fetch] was built by [from_response] from an
    answer of the network to the request of the call. *)
Lemma Fetcher_fetch_returned fuel w run r :
  Fetcher_fetch self fuel url method stream_to headers w = Some run ->
  run_result run = Returned r ->
  exists w_in w_out resp i,
    run_world run = sem_release w_out
    /\ transport i (mkRequest method url (headers_or_default headers)) = Ok resp
    /\ from_response url resp (clock (S i)) stream_to w_in = (Ok r, w_out).
Proof.
  unfold Fetcher_fetch, fetch, _fetch_with_retries.
  destruct (sem_locked w); [discriminate|].
  destruct (retry_loop _ _ _ _ _ _ _ _ _ _) as [run'|] eqn:Hloop; [|discriminate].
  intros [= <-]. simpl. intros Hres.
  destruct (retry_loop_returned _ _ _ _ _ _ (fun _ => True) _ _ _ _ _ _
              (fun _ _ => I) I Hloop Hres) as (w_in & _ & Honce).
  apply _fetch_once_ok in Honce as (resp & _ & Ht & Hfr).
  eauto 10.
Qed.

(** A property of the world that every attempt keeps holds at the end of
    [fetch], once carried over the slot and the session. *)
Lemma Fetcher_fetch_keeps (P : World -> Prop) fuel w run :
  (forall w0, P w0 -> P (snd (_fetch_once url method stream_to headers w0))) ->
  (forall w0, P w0 -> P (sem_release w0)) ->
  P (_ensure_session self (sem_acquire w)) ->
  Fetcher_fetch self fuel url method stream_to headers w = Some run ->
  P (run_world run).
Proof.
  intros Hstep Hrel Hstart Hrun.
  apply fetch_inv in Hrun as (_ & run' & Hloop & ->). simpl.
  apply Hrel.
  destruct (retry_loop_counted _fetch_once self url method stream_to headers
              (fun _ w0 => P w0) fuel 0 [] _ run' 0%nat
              (fun _ w0 Hw0 => Hstep w0 Hw0) Hstart Hloop) as (m & _ & HP).
  exact HP.
Qed.

(** C3. A method other than GET and POST is refused before any request is
    made: the attempt raises [ValueError] and leaves the world as it was,
    and [fetch] raises [FetchError] after exactly one attempt, without
    sleeping and without a request, whatever [retries] is. *)
Theorem unsupported_method_fails_once (fuel : nat) (w : World) :
  method ≠ "GET" -> method ≠ "POST" ->
  0 < w_semaphore w ->
  (forall w0, _fetch_once url method stream_to headers w0 =
     (Raise (mkExn ValueError ("Unsupported HTTP method: " +:+ method)), w0))
  /\ exists run,
      Fetcher_fetch self (S fuel) url method stream_to headers w = Some run
      /\ run_result run =
           Failed (mkFetchError url ("Unsupported HTTP method: " +:+ method))
      /\ run_attempts run = 1
      /\ run_slept run = []
      /\ w_requests (run_world run) = w_requests w
      /\ w_io (run_world run) = w_io w
      /\ w_semaphore (run_world run) = w_semaphore w.
Proof.
  intros Hget Hpost Hfree.
  split; [intros w0; apply _fetch_once_unsupported; assumption|].
  eexists. split.
  - unfold Fetcher_fetch. apply fetch_unfold; [exact Hfree|].
    unfold _fetch_with_retries. simpl.
    rewrite _fetch_once_unsupported by assumption. reflexivity.
  - destruct (_ensure_session_frame (sem_acquire w)) as (Hr & Hio & Hsem & _).
    simpl. rewrite Hr, Hio, Hsem. simpl. repeat split. lia.
Qed.

(** C4. A resource returned by a buffered fetch (no stream target) holds
    in [content] the body read from the response, passed through
    [decompress] under the lower-cased Content-Encoding header, and its
    [hash] is the hexadecimal SHA-256 digest of exactly these bytes. *)
Theorem buffered_fetch_digest (fuel : nat) (w : World) (run : Run) (r : Resource) :
  stream_target stream_to = None ->
  Fetcher_fetch self fuel url method stream_to headers w = Some run ->
  run_result run = Returned r ->
  exists (resp : Response) (i : nat) (raw body : bytes),
    transport i (mkRequest method url (headers_or_default headers)) = Ok resp
    /\ resp_read resp = Ok raw
    /\ body = decompress raw
                (lower (default "" (resp_headers resp !! "Content-Encoding")))
                false
    /\ content r = Some body
    /\ hash r = Some (hex (sha256 body)).
Proof.
  intros Hst Hrun Hres.
  destruct (Fetcher_fetch_returned _ _ _ _ Hrun Hres)
    as (w_in & w_out & resp & i & _ & Ht & Hfr).
  apply from_response_buffered in Hfr as (raw & md & Hraw & _ & _ & Hr); [|exact Hst].
  exists resp, i, raw. eexists. split; [exact Ht|]. split; [exact Hraw|].
  split; [reflexivity|]. rewrite Hr. split; reflexivity.
Qed.

(** C5. A resource returned by a streaming fetch: the response body was
    asked for in chunks of 8192 bytes; for each chunk in turn the digest
    was updated and then the chunk written, before the next chunk; the
    target file holds exactly the chunks received, one after the other,
    whatever the Content-Encoding, and so the raw body of a response that
    delivers one; [hash] is the hexadecimal SHA-256 digest of the bytes
    in the file; [content] stays unset.  When the response cuts its body
    as [DummyResp] does, no chunk is longer than 8192 bytes. *)
Theorem streaming_fetch_digest (fuel : nat) (w : World) (run : Run)
    (r : Resource) (target : PathArg) :
  stream_target stream_to = Some target ->
  Fetcher_fetch self fuel url method stream_to headers w = Some run ->
  run_result run = Returned r ->
  exists (resp : Response) (i : nat) (chunks : list bytes) (log : list IOEvent),
    transport i (mkRequest method url (headers_or_default headers)) = Ok resp
    /\ resp_iter_chunked resp 8192 = (chunks, None)
    /\ w_files (run_world run) !! path_str (as_Path target) = Some (concat chunks)
    /\ hash r = Some (hex (sha256 (concat chunks)))
    /\ content r = None
    /\ file_path r = Some (as_Path target)
    /\ w_io (run_world run) =
         log ++ EvOpen (path_str (as_Path target))
             :: (stream_events (path_str (as_Path target)) chunks
                 ++ [EvClose (path_str (as_Path target))])
    /\ (forall body, delivers resp body -> concat chunks = body)
    /\ (forall body,
           resp_iter_chunked resp = dummy_iter_chunked body ->
           Forall (fun c => Z.of_nat (length c) <= 8192) chunks).
Proof.
  intros Hst Hrun Hres.
  destruct (Fetcher_fetch_returned _ _ _ _ Hrun Hres)
    as (w_in & w_out & resp & i & Hw & Ht & Hfr).
  apply (from_response_streamed _ _ _ _ target) in Hfr
    as (chunks & md & Hch & _ & _ & Hout & Hr); [|exact Hst].
  exists resp, i, chunks, (w_io w_in).
  split; [exact Ht|]. split; [exact Hch|].
  rewrite Hw, Hout, Hr. simpl.
  split; [apply lookup_insert_eq|].
  split; [reflexivity|]. split; [reflexivity|].
  split; [f_equal; apply as_Path_str|].
  split; [reflexivity|]. split.
  - intros body [_ Hbody].
    destruct (Hbody CHUNK_SIZE ltac:(reflexivity)) as (chunks' & Hd & Hcat).
    rewrite Hch in Hd. injection Hd as <-. exact Hcat.
  - intros body Hbody.
    destruct (dummy_iter_chunked_spec body CHUNK_SIZE ltac:(reflexivity))
      as (chunks' & Hd & _ & Hlen).
    rewrite <- Hbody, Hch in Hd. injection Hd as <-. exact Hlen.
Qed.

(** C6. A resource returned by [fetch] has exactly one of [content] and
    [file_path] set: [content] alone for a buffered fetch, [file_path]
    alone for a streaming one. *)
Theorem resource_content_xor_path (fuel : nat) (w : World) (run : Run)
    (r : Resource) :
  Fetcher_fetch self fuel url method stream_to headers w = Some run ->
  run_result run = Returned r ->
  (stream_target stream_to = None
   /\ is_Some (content r) /\ file_path r = None)
  \/ (is_Some (stream_target stream_to)
      /\ content r = None /\ is_Some (file_path r)).
Proof.
  intros Hrun Hres.
  destruct (Fetcher_fetch_returned _ _ _ _ Hrun Hres)
    as (w_in & w_out & resp & i & _ & _ & Hfr).
  destruct (stream_target stream_to) as [target|] eqn:Hst.
  - right.
    destruct (from_response_streamed _ _ _ _ target _ _ _ Hst Hfr)
      as (chunks & md & _ & _ & _ & _ & Hr).
    rewrite Hr. simpl. split; [eexists; reflexivity|].
    split; [reflexivity | eexists; reflexivity].
  - left.
    destruct (from_response_buffered _ _ _ _ _ _ _ Hst Hfr) as (raw & md & _ & _ & _ & Hr).
    rewrite Hr. simpl. split; [reflexivity|].
    split; [eexists; reflexivity | reflexivity].
Qed.

Lemma DEFAULT_HEADERS_lookup (k : string) :
  DEFAULT_HEADERS !! k =
  if bool_decide (k = "User-Agent") then Some "Fetcher/1.0"
  else if bool_decide (k = "Accept-Encoding") then Some "gzip, deflate"
  else None.
Proof.
  unfold DEFAULT_HEADERS, DEFAULT_USER_AGENT.
  repeat case_bool_decide; subst; simplify_map_eq; reflexivity.
Qed.

(** C10. Every request of a [fetch] call with method GET or POST carries
    the same headers, and one request goes out per attempt: the mapping
    passed by the caller, as it is, when it is not empty (the defaults
    are not merged into it); the default mapping, which has exactly the
    keys User-Agent (Fetcher/1.0) and Accept-Encoding (gzip, deflate),
    when no mapping or an empty one is passed. *)
Theorem request_headers_override (fuel : nat) (w : World) (run : Run) :
  method = "GET" \/ method = "POST" ->
  Fetcher_fetch self fuel url method stream_to headers w = Some run ->
  (exists n : nat,
      run_attempts run = Z.of_nat (S n)
      /\ w_requests (run_world run) =
         w_requests w
         ++ replicate (S n) (mkRequest method url (headers_or_default headers)))
  /\ (forall h, headers = Some h -> h ≠ ∅ -> headers_or_default headers = h)
  /\ (headers = None \/ headers = Some ∅ ->
      headers_or_default headers = DEFAULT_HEADERS)
  /\ (forall k, DEFAULT_HEADERS !! k =
         if bool_decide (k = "User-Agent") then Some "Fetcher/1.0"
         else if bool_decide (k = "Accept-Encoding") then Some "gzip, deflate"
         else None).
Proof.
  intros Hm Hrun. split; [|split; [|split]].
  - revert Hrun. unfold Fetcher_fetch, fetch, _fetch_with_retries.
    destruct (sem_locked w); [discriminate|].
    destruct (retry_loop _ _ _ _ _ _ _ _ _ _) as [run'|] eqn:Hloop; [|discriminate].
    intros [= <-]. simpl.
    destruct (_ensure_session_open (sem_acquire w)) as (s & Hs & Hopen).
    destruct (_ensure_session_frame (sem_acquire w)) as (Hreq & _).
    destruct (retry_loop_counted _fetch_once self url method stream_to headers
                (fun n w0 =>
                   w_session w0 = Some s
                   /\ w_requests w0 =
                      w_requests w
                      ++ replicate n (mkRequest method url (headers_or_default headers)))
                fuel 0 [] (_ensure_session self (sem_acquire w)) run' 0%nat)
      as (m & Hm' & _ & HP).
    + intros n w0 [Hs0 Hr0].
      destruct (_fetch_once_request url method stream_to headers w0 s Hs0 Hopen Hm)
        as [Hr1 Hs1].
      split; [exact Hs1|]. rewrite Hr1, Hr0, replicate_S_end, app_assoc. reflexivity.
    + split; [exact Hs|]. rewrite Hreq. simpl. rewrite app_nil_r. reflexivity.
    + exact Hloop.
    + exists m. split; [lia|]. exact HP.
  - intros h -> Hne. unfold headers_or_default.
    rewrite bool_decide_eq_false_2 by exact Hne. reflexivity.
  - intros [-> | ->]; reflexivity.
  - exact DEFAULT_HEADERS_lookup.
Qed.

(** X11. A [fetch] that ends leaves an open session: the one it found,
    if that was open (sessions are reused from call to call), and
    otherwise a new one with the fetcher's timeout.  [aclose] after it
    sets the session back to [None]. *)
Theorem fetch_leaves_open_session (fuel : nat) (w : World) (run : Run) :
  Fetcher_fetch self fuel url method stream_to headers w = Some run ->
  exists s,
    w_session (run_world run) = Some s
    /\ session_closed s = false
    /\ (session_open w = true -> w_session w = Some s)
    /\ (session_open w = false -> s = mkSession (timeout self) false)
    /\ w_session (aclose (run_world run)) = None.
Proof.
  intros Hrun.
  assert (Hs : w_session (run_world run)
               = w_session (_ensure_session self (sem_acquire w))).
  { apply (Fetcher_fetch_keeps
             (fun w0 => w_session w0 = w_session (_ensure_session self (sem_acquire w)))
             fuel w run); [| | reflexivity | exact Hrun].
    - intros w0 Hw0. destruct (_fetch_once_keeps url method stream_to headers w0)
        as [Hk _]. simpl in Hk. rewrite Hk. exact Hw0.
    - intros w0 Hw0. exact Hw0. }
  rewrite _ensure_session_spec in Hs.
  change (session_open (sem_acquire w)) with (session_open w) in Hs.
  unfold aclose. rewrite Hs. clear Hs. unfold session_open.
  destruct (w_session w) as [[t [|]]|] eqn:Hw; simpl; rewrite ?Hw; simpl;
    eexists; (split; [reflexivity|]); (split; [reflexivity|]);
    (split; [first [discriminate | reflexivity]|]);
    (split; [first [discriminate | reflexivity] | reflexivity]).
Qed.

(** X13. A [fetch] without a stream target ([None] or the empty string)
    never touches the file system: the files and the streaming log are
    the same after it, however many attempts it makes and however it
    ends. *)
Theorem buffered_fetch_keeps_files (fuel : nat) (w : World) (run : Run) :
  stream_target stream_to = None ->
  Fetcher_fetch self fuel url method stream_to headers w = Some run ->
  w_files (run_world run) = w_files w
  /\ w_io (run_world run) = w_io w
  /\ stream_target (Some (PStr "")) = None.
Proof.
  intros Hst Hrun.
  destruct (_ensure_session_frame (sem_acquire w)) as (_ & Hio & _ & Hfs).
  assert (HP : w_files (run_world run) = w_files w /\ w_io (run_world run) = w_io w).
  { apply (Fetcher_fetch_keeps
             (fun w0 => w_files w0 = w_files w /\ w_io w0 = w_io w) fuel w run);
      [| | | exact Hrun].
    - intros w0 [Hf Hi].
      destruct (_fetch_once_buffered_files url method stream_to headers w0 Hst)
        as [Hf' Hi']. simpl in *. rewrite Hf', Hi'. split; assumption.
    - intros w0 Hw0. exact Hw0.
    - rewrite Hio, Hfs. split; reflexivity. }
  destruct HP as [Hf Hi]. split; [exact Hf|]. split; [exact Hi | reflexivity].
Qed.

End FetcherProperties.

Lemma unsupported_method_fails_once_witness :
  exists run,
    @Fetcher_fetch framing_codecs sum_hashlib (steady_network example_response)
      example_fetcher 1 example_url "PUT" None None example_world = Some run
    /\ run_result run =
         Failed (mkFetchError example_url "Unsupported HTTP method: PUT")
    /\ run_attempts run = 1
    /\ run_slept run = []
    /\ w_requests (run_world run) = []
    /\ w_io (run_world run) = []
    /\ w_semaphore (run_world run) = 1.
Proof.
  apply (@unsupported_method_fails_once framing_codecs sum_hashlib
           (steady_network example_response) example_fetcher example_url "PUT"
           None None 0 example_world);
    [discriminate | discriminate | reflexivity].
Defined.

Lemma request_headers_override_witness :
  exists run,
    @Fetcher_fetch framing_codecs sum_hashlib (flaky_network 1 example_response)
      example_fetcher 2 example_url "POST" None
      (Some (<["Accept" := "text/html"]> ∅)) example_world = Some run
    /\ exists n : nat,
        run_attempts run = Z.of_nat (S n)
        /\ w_requests (run_world run) =
           w_requests example_world
           ++ replicate (S n)
                (mkRequest "POST" example_url
                   (headers_or_default (Some (<["Accept" := "text/html"]> ∅)))).
Proof.
  eexists. split; [vm_compute; reflexivity|].
  eapply (@request_headers_override framing_codecs sum_hashlib
            (flaky_network 1 example_response) example_fetcher example_url "POST"
            None (Some (<["Accept" := "text/html"]> ∅)) 2 example_world);
    [right; reflexivity | vm_compute; reflexivity].
Defined.

Lemma buffered_fetch_digest_witness :
  exists run r,
    @Fetcher_fetch framing_codecs sum_hashlib (steady_network gzip_response)
      example_fetcher 1 example_url "GET" None None example_world = Some run
    /\ run_result run = Returned r
    /\ content r = Some (bytes_of "hello world")
    /\ exists (resp : Response) (i : nat) (raw body : bytes),
        @transport (steady_network gzip_response) i
          (mkRequest "GET" example_url (headers_or_default None)) = Ok resp
        /\ resp_read resp = Ok raw
        /\ body = @decompress framing_codecs raw
                    (lower (default "" (resp_headers resp !! "Content-Encoding")))
                    false
        /\ content r = Some body
        /\ hash r = Some (hex (@sha256 sum_hashlib body)).
Proof.
  eexists. eexists.
  split; [vm_compute; reflexivity|]. split; [reflexivity|].
  split; [reflexivity|].
  eapply (@buffered_fetch_digest framing_codecs sum_hashlib
           (steady_network gzip_response) example_fetcher example_url "GET"
           None None 1 example_world);
    [reflexivity | vm_compute; reflexivity | reflexivity].
Defined.

Lemma streaming_fetch_digest_witness :
  exists run r,
    @Fetcher_fetch framing_codecs sum_hashlib (steady_network gzip_response)
      example_fetcher 1 example_url "GET" (Some (PStr "out.bin")) None
      example_world = Some run
    /\ run_result run = Returned r
    /\ w_files (run_world run) !! "out.bin" =
         Some (@gzip_compress framing_codecs (bytes_of "hello world"))
    /\ exists (resp : Response) (i : nat) (chunks : list bytes) (log : list IOEvent),
        @transport (steady_network gzip_response) i
          (mkRequest "GET" example_url (headers_or_default None)) = Ok resp
        /\ resp_iter_chunked resp 8192 = (chunks, None)
        /\ w_files (run_world run) !! "out.bin" = Some (concat chunks)
        /\ hash r = Some (hex (@sha256 sum_hashlib (concat chunks)))
        /\ content r = None
        /\ file_path r = Some (mkPath "out.bin")
        /\ w_io (run_world run) =
             log ++ EvOpen "out.bin"
                 :: (stream_events "out.bin" chunks ++ [EvClose "out.bin"])
        /\ (forall body, delivers resp body -> concat chunks = body)
        /\ (forall body,
               resp_iter_chunked resp = dummy_iter_chunked body ->
               Forall (fun c => Z.of_nat (length c) <= 8192) chunks).
Proof.
  eexists. eexists.
  split; [vm_compute; reflexivity|]. split; [reflexivity|].
  split; [vm_compute; reflexivity|].
  eapply (@streaming_fetch_digest framing_codecs sum_hashlib
            (steady_network gzip_response) example_fetcher example_url "GET"
            (Some (PStr "out.bin")) None 1 example_world _ _ (PStr "out.bin"));
    [reflexivity | vm_compute; reflexivity | reflexivity].
Defined.

Lemma resource_content_xor_path_witness :
  exists run r,
    @Fetcher_fetch framing_codecs sum_hashlib (steady_network example_response)
      example_fetcher 1 example_url "GET" None None example_world = Some run
    /\ run_result run = Returned r
    /\ ((stream_target None = None /\ is_Some (content r) /\ file_path r = None)
        \/ (is_Some (stream_target None)
            /\ content r = None /\ is_Some (file_path r))).
Proof.
  eexists. eexists.
  split; [vm_compute; reflexivity|]. split; [reflexivity|].
  eapply (@resource_content_xor_path framing_codecs sum_hashlib
            (steady_network example_response) example_fetcher example_url "GET"
            None None 1 example_world);
    [vm_compute; reflexivity | reflexivity].
Defined.

Lemma fetch_leaves_open_session_witness :
  exists run s,
    @Fetcher_fetch framing_codecs sum_hashlib (steady_network example_response)
      example_fetcher 1 example_url "GET" None None example_world = Some run
    /\ w_session (run_world run) = Some s
    /\ session_closed s = false
    /\ w_session (aclose (run_world run)) = None.
Proof.
  eexists.
  destruct (@fetch_leaves_open_session framing_codecs sum_hashlib
              (steady_network example_response) example_fetcher example_url
              "GET" None None 1 example_world _ ltac:(vm_compute; reflexivity))
    as (s & Hs & Hopen & _ & _ & Hclose).
  exists s. split; [reflexivity|]. split; [exact Hs|].
  split; [exact Hopen | exact Hclose].
Defined.

Lemma buffered_fetch_keeps_files_witness :
  exists run,
    @Fetcher_fetch framing_codecs sum_hashlib (flaky_network 1 example_response)
      example_fetcher 2 example_url "GET" (Some (PStr "")) None example_world
    = Some run
    /\ w_files (run_world run) = w_files example_world
    /\ w_io (run_world run) = w_io example_world.
Proof.
  eexists. split; [vm_compute; reflexivity|].
  destruct (@buffered_fetch_keeps_files framing_codecs sum_hashlib
              (flaky_network 1 example_response) example_fetcher example_url
              "GET" (Some (PStr "")) None 2 example_world _ eq_refl
              ltac:(vm_compute; reflexivity)) as (Hf & Hio & _).
  split; [exact Hf | exact Hio].
Defined.



(** ** resource.py: what [from_response] builds *)

Section MaterializeProperties.
Context `{Codecs} `{Hashlib}.

(** X5. A stream that breaks off: when the chunk iterator raises after
    some chunks, [from_response] raises the same exception and returns no
    resource, but the target file stays, closed, with the chunks that had
    arrived. *)
Theorem stream_interrupted_leaves_partial_file url resp now stream_to target
    (w : World) (chunks : list bytes) (e : PyExn) :
  stream_target stream_to = Some target ->
  path_str (as_Path target) ∉ w_readonly w ->
  resp_iter_chunked resp 8192 = (chunks, Some e) ->
  exists w',
    from_response url resp now stream_to w = (Raise e, w')
    /\ w_files w' !! path_str (as_Path target) = Some (concat chunks)
    /\ w_io w' =
       w_io w ++ EvOpen (path_str (as_Path target))
              :: (stream_events (path_str (as_Path target)) chunks
                  ++ [EvClose (path_str (as_Path target))]).
Proof.
  intros Hst Hro Hch. rewrite (from_response_stream_spec _ _ _ _ target) by exact Hst.
  rewrite bool_decide_eq_false_2 by exact Hro.
  change CHUNK_SIZE with 8192. rewrite Hch. simpl.
  eexists. split; [reflexivity|]. split; [apply lookup_insert_eq | reflexivity].
Qed.


(** X7. Streaming and buffering the same response, one that delivers
    [body] under a Content-Encoding that [decompress] leaves alone:
    whenever both calls of [from_response] return, the buffered
    resource holds [body] and the streamed file holds [body], the
    streamed resource holds no content, and the two agree on digest,
    URLs and timestamp.  Their metadata agree in every field but
    possibly [encoding]: each records what [get_encoding] returned to
    it, the streaming path having asked before the body was read. *)
Theorem stream_and_buffer_agree u resp now target (w w1 w2 : World)
    (body : bytes) (r1 r2 : Resource) :
  stream_target (Some target) = Some target ->
  delivers resp body ->
  decompress body (response_encoding resp) false = body ->
  from_response u resp now None w = (Ok r1, w1) ->
  from_response u resp now (Some target) w = (Ok r2, w2) ->
  content r1 = Some body
  /\ content r2 = None
  /\ w_files w2 !! path_str (as_Path target) = Some body
  /\ hash r1 = hash r2
  /\ hash r1 = Some (hex (sha256 body))
  /\ url r1 = url r2
  /\ redirected_url r1 = redirected_url r2
  /\ fetched_at r1 = fetched_at r2
  /\ exists md1 md2,
      metadata r1 = Some md1
      /\ metadata r2 = Some md2
      /\ resp_get_encoding resp true = Ok (md_encoding md1)
      /\ resp_get_encoding resp false = Ok (md_encoding md2)
      /\ md_headers md1 = md_headers md2
      /\ md_status_code md1 = md_status_code md2
      /\ md_content_type md1 = md_content_type md2
      /\ md_mime md1 = md_mime md2
      /\ md_etag md1 = md_etag md2
      /\ md_last_modified md1 = md_last_modified md2
      /\ md_content_encoding md1 = md_content_encoding md2
      /\ md_fetched_at md1 = md_fetched_at md2
      /\ (md_encoding md1 = md_encoding md2 -> metadata r1 = metadata r2).
Proof.
  intros Hst [Hread Hiter] Hdec Hbuf Hstr.
  destruct (Hiter CHUNK_SIZE ltac:(reflexivity)) as (chunks & Hch & Hcat).
  destruct (from_response_buffered u resp now None w r1 w1 eq_refl Hbuf)
    as (raw & md1 & Hraw & Hmd1 & _ & Hr1).
  destruct (from_response_streamed _ _ _ _ target _ _ _ Hst Hstr)
    as (chunks' & md2 & Hch' & Hmd2 & _ & Hw2 & Hr2).
  rewrite Hread in Hraw. injection Hraw as <-.
  rewrite Hch in Hch'. injection Hch' as <-.
  rewrite Hdec in Hr1. subst body r1 r2 w2.
  unfold response_metadata, _extract_metadata in Hmd1, Hmd2.
  destruct (resp_get_encoding resp true) as [enc1 | e1]; [|discriminate].
  destruct (resp_get_encoding resp false) as [enc2 | e2]; [|discriminate].
  injection Hmd1 as <-. injection Hmd2 as <-. simpl.
  split; [reflexivity|]. split; [reflexivity|].
  split; [apply lookup_insert_eq|].
  do 5 (split; [reflexivity|]).
  do 2 eexists. do 12 (split; [reflexivity|]).
  simpl. intros ->. reflexivity.
Qed.

(** X8. How the Content-Encoding header routes a buffered body.  The
    header is compared in lower case.  With no header the content is the
    body as read; with a value that lower-cases to "gzip" (or "deflate")
    it is the decoded body when the decoder accepts it, and the body as
    read when the decoder raises; the digest is always that of the
    content, and the metadata record the lower-cased header. *)
Theorem buffered_content_encoding url resp now stream_to (w : World)
    (r : Resource) (w' : World) (raw : bytes) :
  stream_target stream_to = None ->
  resp_read resp = Ok raw ->
  from_response url resp now stream_to w = (Ok r, w') ->
  (resp_headers resp !! "Content-Encoding" = None -> content r = Some raw)
  /\ (forall v plain,
         resp_headers resp !! "Content-Encoding" = Some v ->
         (lower v = "gzip" /\ gzip_decompress raw = Ok plain)
         \/ (lower v = "deflate" /\ zlib_decompress raw = Ok plain) ->
         content r = Some plain)
  /\ (forall v x,
         resp_headers resp !! "Content-Encoding" = Some v ->
         (lower v = "gzip" /\ gzip_decompress raw = Raise x)
         \/ (lower v = "deflate" /\ zlib_decompress raw = Raise x)
         \/ (lower v ≠ "gzip" /\ lower v ≠ "deflate") ->
         content r = Some raw)
  /\ (exists c, content r = Some c /\ hash r = Some (hex (sha256 c)))
  /\ (exists md, metadata r = Some md
                 /\ md_content_encoding md = response_encoding resp).
Proof.
  intros Hst Hread Hfr.
  apply from_response_buffered in Hfr as (raw' & md & Hraw & Hmd & _ & ->);
    [|exact Hst].
  rewrite Hread in Hraw. injection Hraw as <-.
  unfold response_metadata, _extract_metadata in Hmd.
  destruct (resp_get_encoding resp true); [|discriminate].
  injection Hmd as <-. unfold response_encoding.
  cbn [content hash metadata Resource_init md_content_encoding].
  split; [intros Hv; rewrite Hv; reflexivity|].
  split; [|split; [|split]].
  - intros v plain Hv [[Hl Hd] | [Hl Hd]]; rewrite Hv; simpl; rewrite Hl.
    + rewrite decompress_gzip, Hd. reflexivity.
    + rewrite decompress_deflate, Hd. reflexivity.
  - intros v x Hv [[Hl Hd] | [[Hl Hd] | [Hg Hd]]]; rewrite Hv; simpl.
    + rewrite Hl, decompress_gzip, Hd. reflexivity.
    + rewrite Hl, decompress_deflate, Hd. reflexivity.
    + rewrite decompress_other_label by assumption. reflexivity.
  - eexists. split; reflexivity.
  - eexists. split; reflexivity.
Qed.

(** X9. What every resource built by [from_response] records, on either
    path: the URL asked for, the URL of the response, the timestamp given
    (also in the metadata), a digest, the response's status, its headers
    as [dict(resp.headers)] gives them, what [resp.headers.get] answers
    for ETag and Last-Modified, and what [get_encoding] returned.  The
    MIME type is the Content-Type up to its first semicolon, not
    trimmed, and is absent exactly when [resp.headers.get] has no
    Content-Type or an empty one. *)
Theorem resource_records_response u resp now stream_to (w : World)
    (r : Resource) (w' : World) :
  from_response u resp now stream_to w = (Ok r, w') ->
  url r = u
  /\ redirected_url r = Some (resp_url resp)
  /\ fetched_at r = Some now
  /\ is_Some (hash r)
  /\ exists md,
      metadata r = Some md
      /\ md_fetched_at md = now
      /\ md_status_code md = resp_status resp
      /\ md_headers md = headers_dict (resp_headers resp)
      /\ md_etag md = headers_get (resp_headers resp) "ETag"
      /\ md_last_modified md = headers_get (resp_headers resp) "Last-Modified"
      /\ md_content_type md
         = default "" (headers_get (resp_headers resp) "Content-Type")
      /\ md_content_encoding md
         = lower (default "" (headers_get (resp_headers resp) "Content-Encoding"))
      /\ resp_get_encoding resp (bool_decide (stream_target stream_to = None))
         = Ok (md_encoding md)
      /\ (md_mime md = None <->
          headers_get (resp_headers resp) "Content-Type" = None
          \/ headers_get (resp_headers resp) "Content-Type" = Some "")
      /\ (forall m, md_mime md = Some m ->
            (";"%char ∉ list_ascii_of_string m)
            /\ exists rest,
                md_content_type md = m +:+ rest
                /\ (rest = "" \/ exists rest', rest = String ";" rest')).
Proof.
  intros Hfr.
  assert (Hshape : exists c h fp md,
            response_metadata resp (bool_decide (stream_target stream_to = None)) now
            = Ok md
            /\ r = Resource_init u (Some (resp_url resp)) c (Some h)
                     (Some md) (Some now) fp).
  { destruct (stream_target stream_to) as [target|] eqn:Hst.
    - destruct (from_response_streamed _ _ _ _ target _ _ _ Hst Hfr)
        as (chunks & md & _ & Hmd & _ & _ & Hr).
      do 4 eexists. split; [exact Hmd | exact Hr].
    - destruct (from_response_buffered _ _ _ _ _ _ _ Hst Hfr)
        as (raw & md & _ & Hmd & _ & Hr).
      do 4 eexists. split; [exact Hmd | exact Hr]. }
  destruct Hshape as (c & h & fp & md & Hmd & ->). simpl.
  split; [reflexivity|]. split; [reflexivity|]. split; [reflexivity|].
  split; [eexists; reflexivity|].
  exists md. split; [reflexivity|].
  unfold response_metadata, _extract_metadata in Hmd.
  destruct (resp_get_encoding resp _) as [detected | e] eqn:Henc; [|discriminate].
  injection Hmd as <-. simpl.
  do 8 (split; [reflexivity|]).
  clear Hfr Henc.
  unfold response_mime, response_content_type, str_truthy.
  change (resp_headers resp !! "Content-Type")
    with (headers_get (resp_headers resp) "Content-Type").
  split.
  - destruct (headers_get (resp_headers resp) "Content-Type") as [ct|]; simpl.
    + case_bool_decide as Hct; simpl.
      * subst ct. split; [intros _; right; reflexivity | reflexivity].
      * split; [discriminate|]. intros [? | [= ->]]; [discriminate | contradiction].
    + split; [intros _; left; reflexivity | reflexivity].
  - intros m. case_bool_decide; simpl; [discriminate|]. intros [= <-].
    destruct (split_head_spec ";"
                (default "" (headers_get (resp_headers resp) "Content-Type")))
      as (rest & Hs & Hno & Hrest).
    split; [exact Hno|]. exists rest. split; [exact Hs | exact Hrest].
Qed.
End MaterializeProperties.

Lemma stream_interrupted_leaves_partial_file_witness :
  exists w',
    @from_response framing_codecs sum_hashlib example_url broken_response
      "2024-01-01T00:00:00Z" (Some (PStr "out.bin")) example_world
    = (Raise (mkExn ClientError "Connection reset"), w')
    /\ w_files w' !! "out.bin" = Some (concat [bytes_of "hel"])
    /\ w_io w' =
       w_io example_world
       ++ EvOpen "out.bin"
          :: (stream_events "out.bin" [bytes_of "hel"] ++ [EvClose "out.bin"]).
Proof.
  apply (@stream_interrupted_leaves_partial_file framing_codecs sum_hashlib
           example_url broken_response "2024-01-01T00:00:00Z"
           (Some (PStr "out.bin")) (PStr "out.bin") example_world
           [bytes_of "hel"] (mkExn ClientError "Connection reset"));
    [reflexivity | simpl; set_solver | reflexivity].
Defined.


Lemma stream_and_buffer_agree_witness :
  exists r1 r2 w2,
    @from_response framing_codecs sum_hashlib example_url example_response
      "2024-01-01T00:00:00Z" None example_world = (Ok r1, example_world)
    /\ @from_response framing_codecs sum_hashlib example_url example_response
         "2024-01-01T00:00:00Z" (Some (PStr "out.bin")) example_world = (Ok r2, w2)
    /\ content r1 = Some (bytes_of "hello world")
    /\ w_files w2 !! "out.bin" = Some (bytes_of "hello world")
    /\ hash r1 = hash r2.
Proof.
  do 3 eexists.
  split; [vm_compute; reflexivity|]. split; [vm_compute; reflexivity|].
  destruct (@stream_and_buffer_agree framing_codecs sum_hashlib example_url
              example_response "2024-01-01T00:00:00Z" (PStr "out.bin")
              example_world _ _ (bytes_of "hello world") _ _
              eq_refl (DummyResp_delivers _ _ _ _ _) eq_refl
              ltac:(vm_compute; reflexivity) ltac:(vm_compute; reflexivity))
    as (Hc & _ & Hf & Hh & _).
  split; [exact Hc|]. split; [exact Hf | exact Hh].
Defined.

Lemma buffered_content_encoding_witness :
  exists r,
    @from_response framing_codecs sum_hashlib example_url gzip_response
      "2024-01-01T00:00:00Z" None example_world = (Ok r, example_world)
    /\ content r = Some (bytes_of "hello world").
Proof.
  eexists. split; [vm_compute; reflexivity|].
  destruct (@buffered_content_encoding framing_codecs sum_hashlib example_url
              gzip_response "2024-01-01T00:00:00Z" None example_world _
              example_world
              (@gzip_compress framing_codecs (bytes_of "hello world"))
              eq_refl eq_refl ltac:(vm_compute; reflexivity))
    as (_ & Hdecoded & _).
  apply (Hdecoded "GZIP"); [reflexivity | left; split; reflexivity].
Defined.

Lemma resource_records_response_witness :
  exists r md,
    @from_response framing_codecs sum_hashlib example_url example_response
      "2024-01-01T00:00:00Z" None example_world = (Ok r, example_world)
    /\ url r = example_url
    /\ redirected_url r = Some "http://example.com/redirect"
    /\ metadata r = Some md
    /\ md_mime md = Some "text/plain".
Proof.
  eexists. eexists. split; [vm_compute; reflexivity|].
  destruct (@resource_records_response framing_codecs sum_hashlib example_url
              example_response "2024-01-01T00:00:00Z" None example_world _
              example_world ltac:(vm_compute; reflexivity))
    as (Hurl & Hredir & _ & _ & md & Hmd & _).
  split; [exact Hurl|]. split; [exact Hredir|]. split; reflexivity.
Defined.


(** ** core.py: the context manager and the default headers *)

(** X12. [async with Fetcher(...)]: the block's result or exception comes
    out as it is; on either way out no open session is left; nothing
    else of the world left by the block is changed; and entering makes
    no session. *)
Theorem async_with_closes_session {A} (body : M A) (w : World) :
  fst (async_with_Fetcher body w) = fst (body w)
  /\ session_open (snd (async_with_Fetcher body w)) = false
  /\ set_session None (snd (async_with_Fetcher body w))
     = set_session None (snd (body w))
  /\ (session_open (snd (body w)) = true ->
      w_session (snd (async_with_Fetcher body w)) = None)
  /\ Fetcher_aenter w = w.
Proof.
  unfold async_with_Fetcher, Fetcher_aenter, Fetcher_aexit, aclose, session_open.
  destruct (body w) as [r w']. simpl.
  destruct (w_session w') as [[t [|]]|] eqn:Hs; simpl; rewrite ?Hs; simpl;
    repeat split; try discriminate.
Qed.

(** X15. The headers sent are never empty, and giving back to
    [headers_or_default] what it chose changes nothing. *)
Theorem headers_or_default_nonempty (headers : option (gmap string string)) :
  headers_or_default headers ≠ ∅
  /\ headers_or_default (Some (headers_or_default headers))
     = headers_or_default headers.
Proof.
  assert (Hd : DEFAULT_HEADERS ≠ ∅).
  { intros Heq. pose proof (DEFAULT_HEADERS_lookup "User-Agent") as Hl.
    rewrite Heq, lookup_empty in Hl. discriminate. }
  assert (Hne : headers_or_default headers ≠ ∅).
  { unfold headers_or_default. destruct headers as [h|]; [|exact Hd].
    case_bool_decide; [exact Hd | assumption]. }
  split; [exact Hne|].
  unfold headers_or_default at 1. rewrite bool_decide_eq_false_2 by exact Hne.
  reflexivity.
Qed.

(** ** More on the chunk iterator of [DummyResp] *)

(** X16. The chunk iterator of the tests' [DummyResp], for a chunk size
    [n > 0], cuts the body into [ceil(len / n)] consecutive pieces: they
    add up to the body, none is empty, all but the last have exactly [n]
    bytes.  For [n = 0] it raises [ValueError] without a chunk, and for
    [n < 0] it ends at once and yields nothing. *)
Theorem dummy_iter_chunked_partition (body : bytes) (n : Z) :
  (0 < n ->
   exists chunks,
     dummy_iter_chunked body n = (chunks, None)
     /\ concat chunks = body
     /\ length chunks
        = ((length body + Z.to_nat n - 1) `div` Z.to_nat n)%nat
     /\ forall k c, chunks !! k = Some c ->
          c = take (Z.to_nat n) (drop (k * Z.to_nat n) body)
          /\ (0 < length c <= Z.to_nat n)%nat
          /\ ((S k < length chunks)%nat -> length c = Z.to_nat n))
  /\ (n = 0 -> exists e, dummy_iter_chunked body n = ([], Some e)
                         /\ exn_cls e = ValueError)
  /\ (n < 0 -> dummy_iter_chunked body n = ([], None)).
Proof.
  split; [|split].
  - intros Hn. unfold dummy_iter_chunked.
    destruct (Z.eqb_spec n 0); [lia|]. destruct (Z.ltb_spec n 0); [lia|].
    set (N := Z.to_nat n). assert (HN : (0 < N)%nat) by lia.
    eexists. split; [reflexivity|]. split; [|split].
    + unfold py_range. rewrite concat_slices. apply take_ge.
      apply py_range_covers. exact HN.
    + unfold py_range. rewrite !length_fmap, length_seq. reflexivity.
    + intros k c. unfold py_range. rewrite !length_fmap, length_seq.
      rewrite !list_lookup_fmap.
      set (q := ((length body + N - 1) `div` N)%nat).
      destruct (seq 0 q !! k) as [k'|] eqn:Hk; [|discriminate].
      apply lookup_seq in Hk as [-> Hkq]. simpl. intros [= <-].
      pose proof (py_range_last (length body) N q HN eq_refl ltac:(lia)) as Hlast.
      rewrite slice_chunk. split; [reflexivity|].
      rewrite length_take, length_drop. split; [nia|]. intros Hnext. nia.
  - intros ->. eexists. split; reflexivity.
  - intros Hn. unfold dummy_iter_chunked.
    destruct (Z.eqb_spec n 0); [lia|]. destruct (Z.ltb_spec n 0); [reflexivity | lia].
Qed.

Lemma dummy_iter_chunked_partition_witness :
  (exists chunks,
      dummy_iter_chunked (bytes_of "0123456789") 4 = (chunks, None)
      /\ concat chunks = bytes_of "0123456789"
      /\ length chunks = 3%nat)
  /\ dummy_iter_chunked (bytes_of "0123456789") (-1) = ([], None).
Proof.
  destruct (dummy_iter_chunked_partition (bytes_of "0123456789") 4)
    as (Hpos & _ & _).
  destruct (dummy_iter_chunked_partition (bytes_of "0123456789") (-1))
    as (_ & _ & Hneg).
  split; [|apply Hneg; reflexivity].
  destruct (Hpos eq_refl) as (chunks & Hch & Hcat & Hlen & _).
  exists chunks. split; [exact Hch|]. split; [exact Hcat | exact Hlen].
Defined.


(** ** core.py: concurrent calls of [fetch] *)

Lemma count_calls_insert (f : Call * CallState -> bool) w w' l i old new :
  l !! i = Some old ->
  count_calls f (mkSystem w' (<[i := new]> l))
  = count_calls f (mkSystem w l) - b2z (f old) + b2z (f new).
Proof.
  unfold count_calls. simpl. revert i.
  induction l as [|x l IH]; intros i Hi; [discriminate|].
  destruct i as [|i].
  - injection Hi as ->. simpl.
    destruct (f old), (f new); simpl; lia.
  - simpl in Hi. specialize (IH i Hi). simpl.
    destruct (f x); simpl in *; lia.
Qed.

Lemma count_calls_init (f : Call * CallState -> bool) w calls :
  (forall c, f (c, Pending) = false) -> count_calls f (sys_init w calls) = 0.
Proof.
  intros Hf. unfold count_calls, sys_init. simpl.
  induction calls as [|c calls IH]; [reflexivity|].
  simpl. rewrite Hf. exact IH.
Qed.

Lemma count_calls_nonneg f s : 0 <= count_calls f s.
Proof. unfold count_calls. lia. Qed.

Section CallProperties.
Variable self_fetch_once :
  string -> string -> option PathArg -> option (gmap string string) ->
  M Resource.
Variable self : Fetcher.

Local Abbreviation once c :=
  (self_fetch_once (call_url c) (call_method c) (call_stream_to c)
     (call_headers c)).
Local Abbreviation loop_of c fuel :=
  (retry_loop self_fetch_once self fuel (call_url c) (call_method c)
     (call_stream_to c) (call_headers c)).
Local Abbreviation fetch_of c fuel :=
  (fetch self_fetch_once self fuel (call_url c) (call_method c)
     (call_stream_to c) (call_headers c)).
Local Abbreviation step := (sys_step self_fetch_once self).
Local Abbreviation run_schedule := (sys_run self_fetch_once self).
Local Abbreviation done_with run :=
  (Finished (run_result run) (run_attempts run) (run_slept run)).

(** The retry loop is [loop_iteration], round after round. *)
Lemma retry_loop_iteration c fuel attempt slept w :
  loop_of c (S fuel) attempt slept w =
  match loop_iteration self_fetch_once self c attempt slept w with
  | inl run => Some run
  | inr (attempt', slept', w') => loop_of c fuel attempt' slept' w'
  end.
Proof.
  unfold loop_iteration. simpl.
  destruct (once c w) as [[r | e] w']; [reflexivity|].
  destruct (is_ValueError (exn_cls e)); [reflexivity|].
  destruct (attempt + 1 =? retries self)%Z; reflexivity.
Qed.

(** The world a round leaves is the one its attempt leaves. *)
Lemma loop_iteration_world c attempt slept w :
  match loop_iteration self_fetch_once self c attempt slept w with
  | inl run => run_world run
  | inr (_, _, w') => w'
  end = snd (once c w).
Proof.
  unfold loop_iteration.
  destruct (once c w) as [[r | e] w']; [reflexivity|]. simpl.
  destruct (is_ValueError (exn_cls e)); [reflexivity|].
  destruct (attempt + 1 =? retries self)%Z; reflexivity.
Qed.

(** A call that runs alone from inside the block: every run of the loop
    is a run of the call's steps, the last of which leaves the block. *)
Lemma solo_loop_steps c fuel : forall attempt slept w run,
  loop_of c fuel attempt slept w = Some run ->
  exists n, (n < fuel)%nat
    /\ run_schedule (replicate (S n) 0%nat)
         (mkSystem w [(c, Active attempt slept)])
       = Some (mkSystem (sem_release (run_world run)) [(c, done_with run)]).
Proof.
  induction fuel as [|fuel IH]; intros attempt slept w run Hrun; [discriminate|].
  rewrite retry_loop_iteration in Hrun.
  destruct (loop_iteration self_fetch_once self c attempt slept w)
    as [run' | [[attempt' slept'] w']] eqn:Hit.
  - injection Hrun as ->. exists 0%nat. split; [lia|].
    simpl. unfold sys_step. simpl. rewrite Hit. reflexivity.
  - destruct (IH _ _ _ _ Hrun) as (n & Hn & Hsteps).
    exists (S n). split; [lia|].
    rewrite replicate_S. cbn [sys_run]. unfold sys_step at 1. simpl.
    rewrite Hit. exact Hsteps.
Qed.

(** The other way round. *)
Lemma solo_steps_loop c n : forall attempt slept w w' result attempts slept',
  run_schedule (replicate n 0%nat) (mkSystem w [(c, Active attempt slept)])
  = Some (mkSystem w' [(c, Finished result attempts slept')]) ->
  exists run,
    loop_of c n attempt slept w = Some run
    /\ w' = sem_release (run_world run)
    /\ result = run_result run
    /\ attempts = run_attempts run
    /\ slept' = run_slept run.
Proof.
  induction n as [|n IH]; intros attempt slept w w' result attempts slept' Hsteps.
  - discriminate.
  - rewrite replicate_S in Hsteps. cbn [sys_run] in Hsteps.
    unfold sys_step at 1 in Hsteps. simpl in Hsteps.
    rewrite retry_loop_iteration.
    destruct (loop_iteration self_fetch_once self c attempt slept w)
      as [run' | [[attempt' slept''] w'']] eqn:Hit.
    + destruct n as [|n].
      * injection Hsteps as <- <- <- <-. exists run'. repeat split.
      * discriminate.
    + apply IH. exact Hsteps.
Qed.

(** [fetch] is the call's steps run one after the other with no other
    call in between: taking the slot, the rounds of the loop, and giving
    the slot back with the last of them. *)
Lemma fetch_solo_steps c fuel w run :
  fetch_of c fuel w = Some run ->
  exists n, (n < fuel)%nat
    /\ run_schedule (replicate (S (S n)) 0%nat) (sys_init w [c])
       = Some (mkSystem (run_world run) [(c, done_with run)]).
Proof.
  intros Hrun. unfold fetch, _fetch_with_retries in Hrun.
  destruct (sem_locked w) eqn:Hlocked; [discriminate|].
  destruct (loop_of c fuel 0 [] (_ensure_session self (sem_acquire w)))
    as [run'|] eqn:Hloop; [|discriminate].
  injection Hrun as <-.
  destruct (solo_loop_steps _ _ _ _ _ _ Hloop) as (n & Hn & Hsteps).
  exists n. split; [exact Hn|].
  rewrite (replicate_S (S n)). cbn [sys_run]. unfold sys_step at 1. simpl.
  rewrite Hlocked. exact Hsteps.
Qed.

Lemma solo_steps_fetch c n w w' result attempts slept :
  run_schedule (replicate (S n) 0%nat) (sys_init w [c])
  = Some (mkSystem w' [(c, Finished result attempts slept)]) ->
  fetch_of c n w = Some (mkRun result attempts slept w').
Proof.
  intros Hsteps. rewrite replicate_S in Hsteps. cbn [sys_run] in Hsteps.
  unfold sys_step at 1 in Hsteps. simpl in Hsteps.
  unfold fetch, _fetch_with_retries.
  destruct (sem_locked w); [discriminate|].
  destruct (solo_steps_loop _ _ _ _ _ _ _ _ _ Hsteps)
    as (run & Hloop & -> & -> & -> & ->).
  rewrite Hloop. reflexivity.
Qed.

(** With no free slot the call waits, and so does [fetch]. *)
Lemma fetch_solo_blocked c w :
  sem_locked w = true ->
  step 0%nat (sys_init w [c]) = None /\ forall fuel, fetch_of c fuel w = None.
Proof.
  intros Hlocked. split.
  - unfold sys_step. simpl. rewrite Hlocked. reflexivity.
  - intros fuel. unfold fetch. rewrite Hlocked. reflexivity.
Qed.

(** What a step of the system is. *)
Lemma sys_step_inv i s s' :
  step i s = Some s' ->
  exists c st st',
    sys_calls s !! i = Some (c, st)
    /\ call_step self_fetch_once self c st (sys_world s) = Some (st', sys_world s')
    /\ sys_calls s' = <[i := (c, st')]> (sys_calls s).
Proof.
  unfold sys_step.
  destruct (sys_calls s !! i) as [[c st]|] eqn:Hi; [|discriminate].
  destruct (call_step self_fetch_once self c st (sys_world s))
    as [[st' w']|] eqn:Hstep; [|discriminate].
  intros [= <-]. exists c, st, st'. simpl.
  split; [reflexivity|]. split; [exact Hstep | reflexivity].
Qed.

(** The scheduler neither adds nor drops nor reorders calls. *)
Lemma sys_step_calls i s s' :
  step i s = Some s' -> (sys_calls s').*1 = (sys_calls s).*1.
Proof.
  intros Hstep. apply sys_step_inv in Hstep as (c & st & st' & Hi & _ & ->).
  rewrite list_fmap_insert. simpl.
  apply list_insert_id. rewrite list_lookup_fmap, Hi. reflexivity.
Qed.

Lemma sys_run_calls schedule : forall s s',
  run_schedule schedule s = Some s' -> (sys_calls s').*1 = (sys_calls s).*1.
Proof.
  induction schedule as [|i rest IH]; intros s s' Hrun.
  - injection Hrun as <-. reflexivity.
  - simpl in Hrun. destruct (step i s) as [s1|] eqn:Hstep; [|discriminate].
    rewrite (IH _ _ Hrun). apply (sys_step_calls _ _ _ Hstep).
Qed.

Section Slots.
Hypothesis attempts_keep_semaphore : forall u m st h w,
  w_semaphore (snd (self_fetch_once u m st h w)) = w_semaphore w.

(** One step of a call and the slots: a pending call takes one, a round
    that ends the loop gives one back, a round that sleeps keeps it. *)
Lemma call_step_slots c st w st' w' :
  call_step self_fetch_once self c st w = Some (st', w') ->
  match st, st' with
  | Pending, Active 0 [] =>
      0 < w_semaphore w /\ w_semaphore w' = w_semaphore w - 1
  | Active _ _, Active _ _ => w_semaphore w' = w_semaphore w
  | Active _ _, Finished _ _ _ => w_semaphore w' = w_semaphore w + 1
  | _, _ => False
  end.
Proof.
  destruct st as [| attempt slept | result attempts slept]; simpl.
  - unfold sem_locked. destruct (Z.leb_spec (w_semaphore w) 0); [discriminate|].
    intros [= <- <-]. split; [assumption|].
    destruct (_ensure_session_frame self (sem_acquire w)) as (_ & _ & Hsem & _).
    rewrite Hsem. reflexivity.
  - pose proof (loop_iteration_world c attempt slept w) as Hw.
    destruct (loop_iteration self_fetch_once self c attempt slept w)
      as [run | [[attempt' slept'] w'']].
    + intros [= <- <-]. simpl. rewrite Hw, attempts_keep_semaphore. reflexivity.
    + intros [= <- <-]. rewrite Hw, attempts_keep_semaphore. reflexivity.
  - discriminate.
Qed.

(** The slots free and the calls inside the block add up to the same
    number after every step, and the free slots never go below zero. *)
Lemma sys_step_slots C i s s' :
  w_semaphore (sys_world s) + active s = C ->
  0 <= w_semaphore (sys_world s) ->
  step i s = Some s' ->
  w_semaphore (sys_world s') + active s' = C
  /\ 0 <= w_semaphore (sys_world s').
Proof.
  intros Hsum Hpos Hstep.
  destruct (sys_step_inv _ _ _ Hstep) as (c & st & st' & Hi & Hcall & Hcalls).
  apply call_step_slots in Hcall.
  assert (Hact : active s' = active s - b2z (is_active (c, st))
                             + b2z (is_active (c, st'))).
  { unfold active. destruct s as [w l], s' as [w' l']. simpl in *. subst l'.
    apply (count_calls_insert _ w). exact Hi. }
  destruct st as [| attempt slept | result attempts slept];
    destruct st' as [| [| |] [|] | result' attempts' slept'];
    simpl in Hcall, Hact; try contradiction; lia.
Qed.

Lemma sys_run_slots C schedule : forall s s',
  w_semaphore (sys_world s) + active s = C ->
  0 <= w_semaphore (sys_world s) ->
  run_schedule schedule s = Some s' ->
  w_semaphore (sys_world s') + active s' = C
  /\ 0 <= w_semaphore (sys_world s').
Proof.
  induction schedule as [|i rest IH]; intros s s' Hsum Hpos Hrun.
  - injection Hrun as <-. split; assumption.
  - simpl in Hrun. destruct (step i s) as [s1|] eqn:Hstep; [|discriminate].
    destruct (sys_step_slots C i s s1 Hsum Hpos Hstep) as [Hsum1 Hpos1].
    exact (IH _ _ Hsum1 Hpos1 Hrun).
Qed.

(** A pending call that moves. *)
Lemma sys_step_enter i c s s' :
  sys_calls s !! i = Some (c, Pending) ->
  step i s = Some s' ->
  0 < w_semaphore (sys_world s)
  /\ sys_calls s' !! i = Some (c, Active 0 [])
  /\ active s' = active s + 1
  /\ finished s' = finished s.
Proof.
  intros Hi Hstep.
  destruct (sys_step_inv _ _ _ Hstep) as (c' & st & st' & Hi' & Hcall & Hcalls).
  rewrite Hi in Hi'. injection Hi' as <- <-.
  pose proof (call_step_slots _ _ _ _ _ Hcall) as Hslots.
  simpl in Hcall. destruct (sem_locked (sys_world s)); [discriminate|].
  injection Hcall as <- _. destruct Hslots as [Hfree _].
  split; [exact Hfree|]. split.
  - rewrite Hcalls. apply list_lookup_insert_eq.
    apply lookup_lt_Some in Hi. exact Hi.
  - unfold active, finished. destruct s as [w l], s' as [w' l']. simpl in *.
    subst l'. rewrite !(count_calls_insert _ w w' l i _ _ Hi). simpl. lia.
Qed.

(** A call that leaves the block. *)
Lemma sys_step_leave i c attempt slept s s' result attempts slept' :
  sys_calls s !! i = Some (c, Active attempt slept) ->
  step i s = Some s' ->
  sys_calls s' !! i = Some (c, Finished result attempts slept') ->
  w_semaphore (sys_world s') = w_semaphore (sys_world s) + 1
  /\ active s' = active s - 1
  /\ finished s' = finished s + 1.
Proof.
  intros Hi Hstep Hi'.
  destruct (sys_step_inv _ _ _ Hstep) as (c' & st & st' & Hi0 & Hcall & Hcalls).
  rewrite Hi in Hi0. injection Hi0 as <- <-.
  rewrite Hcalls, list_lookup_insert_eq in Hi'
    by (apply lookup_lt_Some in Hi; exact Hi).
  injection Hi' as ->.
  apply call_step_slots in Hcall. simpl in Hcall.
  split; [exact Hcall|].
  unfold active, finished. destruct s as [w l], s' as [w' l']. simpl in *.
  subst l'. rewrite !(count_calls_insert _ w w' l i _ _ Hi). simpl. lia.
Qed.
End Slots.
End CallProperties.

Section ConcurrencyProperties.
Context `{Codecs} `{Hashlib} `{Network}.
Variable self : Fetcher.

Local Abbreviation run_schedule := (sys_run _fetch_once self).
Local Abbreviation step := (sys_step _fetch_once self).
Local Abbreviation fetch_of c fuel :=
  (Fetcher_fetch self fuel (call_url c) (call_method c) (call_stream_to c)
     (call_headers c)).

(** A [fetch] that ends leaves the semaphore as it found it. *)
Lemma Fetcher_fetch_releases fuel url method stream_to headers w run :
  Fetcher_fetch self fuel url method stream_to headers w = Some run ->
  w_semaphore (run_world run) = w_semaphore w.
Proof.
  unfold Fetcher_fetch, fetch, _fetch_with_retries.
  destruct (sem_locked w); [discriminate|].
  destruct (retry_loop _ _ _ _ _ _ _ _ _ _) as [run'|] eqn:Hloop; [|discriminate].
  intros [= <-]. simpl.
  destruct (_ensure_session_frame self (sem_acquire w)) as (_ & _ & Hsem & _).
  destruct (retry_loop_counted _fetch_once self url method stream_to headers
              (fun _ w0 => w_semaphore w0 = w_semaphore w - 1)
              fuel 0 [] (_ensure_session self (sem_acquire w)) run' 0%nat)
    as (m & _ & HP).
  - intros _ w0 Hw0. rewrite _fetch_once_semaphore. exact Hw0.
  - rewrite Hsem. reflexivity.
  - exact Hloop.
  - rewrite HP. lia.
Qed.

(** The state of the calls of a fresh fetcher, after any schedule. *)
Lemma reachable_slots files readonly w0 calls schedule s :
  Fetcher_init self files readonly = Ok w0 ->
  run_schedule schedule (sys_init w0 calls) = Some s ->
  w_semaphore (sys_world s) + active s = concurrency self
  /\ 0 <= w_semaphore (sys_world s).
Proof.
  intros Hinit Hrun.
  unfold Fetcher_init, Semaphore_init in Hinit.
  destruct (Z.ltb_spec (concurrency self) 0); [discriminate|].
  injection Hinit as <-.
  eapply (sys_run_slots _fetch_once self _fetch_once_semaphore
            (concurrency self) schedule); [| |exact Hrun].
  - unfold active. rewrite count_calls_init by reflexivity. simpl. lia.
  - simpl. lia.
Qed.

(** C9. The calls of [fetch] issued on a fetcher made with concurrency
    [C], run by asyncio in any order.  At every instant at most [C] of
    them are inside [async with self.semaphore], where the attempts are
    made, and the free slots are [C] less their number.  A call enters
    only when fewer than [C] of the calls that entered before are still
    inside: once [C] calls have entered, the next one enters only after
    one of them has finished; when [C] calls are inside, a pending call
    cannot move.  A call that leaves gives its slot back, whether it
    returns a resource or raises [FetchError].  These steps are
    [fetch]: a call that runs with no other in between ends as [fetch]
    does, with the same result, attempts, delays and world, and waits
    where [fetch] waits. *)
Theorem concurrency_ceiling (files : gmap string bytes) (readonly : gset string)
    (w0 : World) (calls : list Call) (schedule : list nat) (s : System) :
  Fetcher_init self files readonly = Ok w0 ->
  run_schedule schedule (sys_init w0 calls) = Some s ->
  active s <= concurrency self
  /\ w_semaphore (sys_world s) = concurrency self - active s
  /\ (forall i c s',
         sys_calls s !! i = Some (c, Pending) ->
         step i s = Some s' ->
         entered s < concurrency self + finished s
         /\ (concurrency self <= entered s -> 1 <= finished s)
         /\ sys_calls s' !! i = Some (c, Active 0 [])
         /\ active s' = active s + 1)
  /\ (forall i c,
         sys_calls s !! i = Some (c, Pending) ->
         active s = concurrency self ->
         step i s = None)
  /\ (forall i c attempt slept s' result attempts slept',
         sys_calls s !! i = Some (c, Active attempt slept) ->
         step i s = Some s' ->
         sys_calls s' !! i = Some (c, Finished result attempts slept') ->
         w_semaphore (sys_world s') = w_semaphore (sys_world s) + 1
         /\ active s' = active s - 1
         /\ finished s' = finished s + 1)
  /\ (forall c w fuel run,
         fetch_of c fuel w = Some run ->
         exists n, (n < fuel)%nat
           /\ run_schedule (replicate (S (S n)) 0%nat) (sys_init w [c])
              = Some (mkSystem (run_world run)
                        [(c, Finished (run_result run) (run_attempts run)
                               (run_slept run))]))
  /\ (forall c w n w' result attempts slept,
         run_schedule (replicate (S n) 0%nat) (sys_init w [c])
         = Some (mkSystem w' [(c, Finished result attempts slept)]) ->
         fetch_of c n w = Some (mkRun result attempts slept w'))
  /\ (forall c w,
         sem_locked w = true ->
         step 0%nat (sys_init w [c]) = None
         /\ forall fuel, fetch_of c fuel w = None).
Proof.
  intros Hinit Hrun.
  destruct (reachable_slots _ _ _ _ _ _ Hinit Hrun) as [Hsum Hpos].
  split; [lia|]. split; [lia|].
  split; [|split; [|split; [|split; [|split]]]].
  - intros i c s' Hi Hstep.
    destruct (sys_step_enter _fetch_once self _fetch_once_semaphore
                _ _ _ _ Hi Hstep) as (Hfree & Hi' & Hact & _).
    unfold entered. split; [lia|]. split; [lia|]. split; assumption.
  - intros i c Hi Hfull.
    destruct (step i s) as [s'|] eqn:Hstep; [|reflexivity].
    destruct (sys_step_enter _fetch_once self _fetch_once_semaphore
                _ _ _ _ Hi Hstep) as (Hfree & _). lia.
  - intros i c attempt slept s' result attempts slept' Hi Hstep Hi'.
    exact (sys_step_leave _fetch_once self _fetch_once_semaphore
             _ _ _ _ _ _ _ _ _ Hi Hstep Hi').
  - intros c w fuel run. apply fetch_solo_steps.
  - intros c w n w' result attempts slept. apply solo_steps_fetch.
  - intros c w. apply fetch_solo_blocked.
Qed.

(** X17. In every state the calls of a fresh fetcher can reach, the free
    slots stay between 0 and [C]; the calls are the ones issued, in
    their order; when no call is inside the block all [C] slots are
    free again; and with [C = 0] no call ever starts, and [fetch]
    waits for ever.  A [fetch] that ends leaves the semaphore as it
    found it. *)
Theorem semaphore_slots_conserved (files : gmap string bytes)
    (readonly : gset string) (w0 : World) (calls : list Call)
    (schedule : list nat) (s : System) :
  Fetcher_init self files readonly = Ok w0 ->
  run_schedule schedule (sys_init w0 calls) = Some s ->
  0 <= w_semaphore (sys_world s) <= concurrency self
  /\ (sys_calls s).*1 = calls
  /\ (active s = 0 -> w_semaphore (sys_world s) = concurrency self)
  /\ (concurrency self = 0 ->
      schedule = [] /\ s = sys_init w0 calls
      /\ forall c fuel, fetch_of c fuel w0 = None)
  /\ (forall c w fuel run,
         fetch_of c fuel w = Some run ->
         w_semaphore (run_world run) = w_semaphore w).
Proof.
  intros Hinit Hrun.
  destruct (reachable_slots _ _ _ _ _ _ Hinit Hrun) as [Hsum Hpos].
  pose proof (count_calls_nonneg is_active s) as Hnn. fold (active s) in Hnn.
  split; [lia|]. split; [|split; [lia|split]].
  - rewrite (sys_run_calls _ _ _ _ _ Hrun). unfold sys_init. simpl.
    rewrite <- list_fmap_compose. apply list_fmap_id.
  - intros HC. unfold Fetcher_init, Semaphore_init in Hinit.
    rewrite HC in Hinit. simpl in Hinit. injection Hinit as <-.
    assert (Hwait : forall c fuel,
               fetch_of c fuel (mkWorld 0 None files readonly [] []) = None).
    { intros c fuel. apply (fetch_solo_blocked _fetch_once self c). reflexivity. }
    destruct schedule as [|i rest];
      [injection Hrun as <-; split; [reflexivity|]; split; [reflexivity|exact Hwait]|].
    exfalso. simpl in Hrun.
    destruct (step i _) as [s1|] eqn:Hstep; [|discriminate].
    apply sys_step_inv in Hstep as (c & st & st' & Hi & Hcall & _).
    simpl in Hi. rewrite list_lookup_fmap in Hi.
    destruct (calls !! i); [|discriminate]. injection Hi as <- <-.
    discriminate.
  - intros c w fuel run. apply Fetcher_fetch_releases.
Qed.
End ConcurrencyProperties.

Lemma concurrency_ceiling_witness :
  exists s s' e,
    sys_run (@_fetch_once framing_codecs sum_hashlib (steady_network example_response))
      example_fetcher [0%nat] (sys_init example_world example_calls) = Some s
    /\ active s <= concurrency example_fetcher
    /\ sys_step (@_fetch_once framing_codecs sum_hashlib (steady_network example_response))
         example_fetcher 1%nat s = None
    /\ sys_step (@_fetch_once framing_codecs sum_hashlib (steady_network example_response))
         example_fetcher 0%nat s = Some s'
    /\ sys_calls s' !! 0%nat
       = Some (mkCall example_url "PUT" None None, Finished (Failed e) 1 [])
    /\ w_semaphore (sys_world s') = w_semaphore (sys_world s) + 1
    /\ active s' = active s - 1
    /\ finished s' = finished s + 1.
Proof.
  do 3 eexists. split; [vm_compute; reflexivity|].
  destruct (@concurrency_ceiling framing_codecs sum_hashlib
              (steady_network example_response) example_fetcher ∅ ∅
              example_world example_calls [0%nat] _ eq_refl
              ltac:(vm_compute; reflexivity))
    as (Hle & _ & _ & Hfull & Hleave & _).
  split; [exact Hle|].
  split; [eapply Hfull; reflexivity|].
  split; [vm_compute; reflexivity|].
  split; [reflexivity|].
  eapply (Hleave 0%nat); [reflexivity | vm_compute; reflexivity | reflexivity].
Defined.

Lemma semaphore_slots_conserved_witness :
  exists s,
    sys_run (@_fetch_once framing_codecs sum_hashlib (steady_network example_response))
      example_fetcher [0; 0; 1; 1]%nat (sys_init example_world example_calls) = Some s
    /\ 0 <= w_semaphore (sys_world s) <= 1
    /\ (sys_calls s).*1 = example_calls
    /\ w_semaphore (sys_world s) = 1.
Proof.
  eexists. split; [vm_compute; reflexivity|].
  destruct (@semaphore_slots_conserved framing_codecs sum_hashlib
              (steady_network example_response) example_fetcher ∅ ∅
              example_world example_calls [0; 0; 1; 1]%nat _ eq_refl
              ltac:(vm_compute; reflexivity))
    as (Hbounds & Hcalls & Hfree & _).
  split; [exact Hbounds|]. split; [exact Hcalls|].
  apply Hfree. reflexivity.
Defined.
